(** * Delayed level actions (crawl-ref/source/dactions.cc)

    A shallow embedding of the delayed-action queue of Dungeon Crawl:
    the matcher [_mons_matches_counter], the counter rescan
    [update_da_counters], the scheduler [add_daction], the dispatcher
    [_apply_daction] and the replay loop [catchup_dactions], followed by
    the properties of the queue.

    The file dactions.cc is the only translation unit at hand.  What it
    consumes from other units is handled in one of three ways:
    - queries on a monster whose body lives elsewhere (mon-util.cc,
      monster.cc, religion.cc) and the bit constants of enum.h are the
      fields of the interface [mon_util]: every property below holds for
      every implementation of that interface;
    - procedures called for their effect on the rest of the game
      (behaviour_event, mons_att_changed, simple_monster_message, ...) are
      recorded, with their arguments, as [event]s in the order of the calls;
    - the few helpers whose effect on the state of this module matters are
      modelled from the specification, and say so. *)

From Stdlib Require Import ZArith List Bool Lia.
From stdpp Require Import base list strings.

Local Open Scope Z_scope.
Local Open Scope nat_scope.

(** ** Enumerations *)

(** The enumerators of [daction_type].  The switch of [_apply_daction]
    names every one of them, the two counts included. *)
Inductive daction_enumerator : Set :=
  | DACT_ALLY_HOLY
  | DACT_ALLY_UNHOLY_EVIL
  | DACT_ALLY_UNCLEAN_CHAOTIC
  | DACT_ALLY_SPELLCASTER
  | DACT_ALLY_YRED_SLAVE
  | DACT_ALLY_BEOGH
  | DACT_ALLY_SLIME
  | DACT_ALLY_PLANT
  | NUM_DA_COUNTERS
  | DACT_OLD_ENSLAVED_SOULS_POOF
  | DACT_HOLY_NEW_ATTEMPT
  | DACT_HOLY_PETS_GO_NEUTRAL
  | DACT_ALLY_TROG
  | DACT_SHUFFLE_DECKS
  | DACT_REAUTOMAP
  | DACT_REMOVE_JIYVA_ALTARS
  | DACT_PIKEL_SLAVES
  | DACT_ROT_CORPSES
  | DACT_TOMB_CTELE
  | DACT_SLIME_NEW_ATTEMPT
  | NUM_DACTIONS.

(** A value of the C++ type [daction_type] is an integer; it need not be
    the value of an enumerator. *)
Definition daction_type : Set := Z.

(** Modelled from the spec: the declaration of [daction_type] (enum.h) is
    not part of dactions.cc.  The counted kinds are numbered from 0 and
    [NUM_DA_COUNTERS] is their number (section 3 of the specification);
    the other values are the positions of the names in [daction_names],
    whose first uncounted name stands at index 16 and whose length the
    COMPILE_CHECK of [add_daction] equates with [NUM_DACTIONS].  The table
    is read with TAG_MAJOR_VERSION == 34, which puts
    DACT_SLIME_NEW_ATTEMPT last. *)
Definition int_of_daction (e : daction_enumerator) : Z :=
  match e with
  | DACT_ALLY_HOLY => 0
  | DACT_ALLY_UNHOLY_EVIL => 1
  | DACT_ALLY_UNCLEAN_CHAOTIC => 2
  | DACT_ALLY_SPELLCASTER => 3
  | DACT_ALLY_YRED_SLAVE => 4
  | DACT_ALLY_BEOGH => 5
  | DACT_ALLY_SLIME => 6
  | DACT_ALLY_PLANT => 7
  | NUM_DA_COUNTERS => 8
  | DACT_OLD_ENSLAVED_SOULS_POOF => 16
  | DACT_HOLY_NEW_ATTEMPT => 17
  | DACT_HOLY_PETS_GO_NEUTRAL => 18
  | DACT_ALLY_TROG => 19
  | DACT_SHUFFLE_DECKS => 20
  | DACT_REAUTOMAP => 21
  | DACT_REMOVE_JIYVA_ALTARS => 22
  | DACT_PIKEL_SLAVES => 23
  | DACT_ROT_CORPSES => 24
  | DACT_TOMB_CTELE => 25
  | DACT_SLIME_NEW_ATTEMPT => 26
  | NUM_DACTIONS => 27
  end%Z.

Coercion int_of_daction : daction_enumerator >-> Z.

(** The case label, if any, that a [switch (act)] selects. *)
Definition daction_of_int (act : daction_type) : option daction_enumerator :=
  match act with
  | 0 => Some DACT_ALLY_HOLY
  | 1 => Some DACT_ALLY_UNHOLY_EVIL
  | 2 => Some DACT_ALLY_UNCLEAN_CHAOTIC
  | 3 => Some DACT_ALLY_SPELLCASTER
  | 4 => Some DACT_ALLY_YRED_SLAVE
  | 5 => Some DACT_ALLY_BEOGH
  | 6 => Some DACT_ALLY_SLIME
  | 7 => Some DACT_ALLY_PLANT
  | 8 => Some NUM_DA_COUNTERS
  | 16 => Some DACT_OLD_ENSLAVED_SOULS_POOF
  | 17 => Some DACT_HOLY_NEW_ATTEMPT
  | 18 => Some DACT_HOLY_PETS_GO_NEUTRAL
  | 19 => Some DACT_ALLY_TROG
  | 20 => Some DACT_SHUFFLE_DECKS
  | 21 => Some DACT_REAUTOMAP
  | 22 => Some DACT_REMOVE_JIYVA_ALTARS
  | 23 => Some DACT_PIKEL_SLAVES
  | 24 => Some DACT_ROT_CORPSES
  | 25 => Some DACT_TOMB_CTELE
  | 26 => Some DACT_SLIME_NEW_ATTEMPT
  | 27 => Some NUM_DACTIONS
  | _ => None
  end%Z.

(** The enumerations below are declared in enum.h.  Each lists the
    enumerators that dactions.cc names; the last constructor stands for
    every other enumerator, by its value. *)
Inductive mon_attitude_type : Set :=
  | ATT_HOSTILE
  | ATT_NEUTRAL
  | ATT_STRICT_NEUTRAL
  | ATT_GOOD_NEUTRAL
  | ATT_FRIENDLY.

Inductive beh_type : Set := BEH_WANDER | BEH_other (n : Z).
Inductive god_type : Set :=
  GOD_SHINING_ONE | GOD_TROG | GOD_BEOGH | GOD_other (n : Z).
Inductive monster_type : Set := MONS_SLAVE | MONS_other (n : Z).
Inductive enchant_type : Set := ENCH_CHARM | ENCH_other (n : Z).
Inductive dungeon_feature_type : Set :=
  DNGN_FLOOR | DNGN_ALTAR_JIYVA | DNGN_other (n : Z).
Inductive object_class_type : Set := OBJ_CORPSES | OBJ_other (n : Z).
Inductive branch_type : Set := BRANCH_TOMB | BRANCH_other (n : Z).
Inductive mon_event_type : Set := ME_ALERT | ME_other (n : Z).
Inductive killer_type : Set := KILL_DISMISSED | KILL_other (n : Z).

#[global] Instance mon_attitude_type_eq_dec : EqDecision mon_attitude_type.
Proof. solve_decision. Defined.
#[global] Instance beh_type_eq_dec : EqDecision beh_type.
Proof. solve_decision. Defined.
#[global] Instance god_type_eq_dec : EqDecision god_type.
Proof. solve_decision. Defined.
#[global] Instance monster_type_eq_dec : EqDecision monster_type.
Proof. solve_decision. Defined.
#[global] Instance enchant_type_eq_dec : EqDecision enchant_type.
Proof. solve_decision. Defined.
#[global] Instance dungeon_feature_type_eq_dec :
  EqDecision dungeon_feature_type.
Proof. solve_decision. Defined.
#[global] Instance object_class_type_eq_dec : EqDecision object_class_type.
Proof. solve_decision. Defined.
#[global] Instance branch_type_eq_dec : EqDecision branch_type.
Proof. solve_decision. Defined.

(** ** Data *)

(** The members of [monster] that dactions.cc reads or writes, and the
    two that the helpers modelled below need ([alive], [enchantments]).
    [flags] is the bit field, [props] the keys of the property table. *)
Record monster : Set := mk_monster {
  type : monster_type;
  alive : bool;
  attitude : mon_attitude_type;
  behaviour : beh_type;
  god : god_type;
  flags : Z;
  enchantments : list enchant_type;
  props : list string;
  mname : string
}.

(** A grid position, [coord_def]. *)
Definition coord_def : Set := (Z * Z)%type.

Record item_def : Set := mk_item {
  base_type : object_class_type;
  sub_type : Z;
  special : Z
}.

(** [LevelInfo] (travel.h), as far as this module is concerned: its
    counter table, "an array of NUM_COUNTERS non-negative integers". *)
Record LevelInfo : Set := mk_LevelInfo {
  da_counters : list nat
}.

Definition level_id : Set := (branch_type * Z)%type.

(** What the module calls without looking at the result.  Monsters are
    named by their index in [menv]. *)
Inductive event : Set :=
  | behaviour_event (mi : nat) (ev : mon_event_type)
  | mons_att_changed (mi : nat)
  | simple_monster_message (mi : nat) (msg : string)
  | monster_die (mi : nat) (killer : killer_type)
  | shuffle_all_decks_on_level
  | reautomap_level
  | unset_level_flags_call (lflags : Z) (silent : bool).

(** [you]: the global action log and the position of the player. *)
Record player : Type := mk_player {
  dactions : list daction_type;
  where_are_you : branch_type;
  depth : Z
}.

(** [env]: the active level, with its cursor into the log, "an integer,
    0 <= cursor <= log length" (env.h is not at hand). *)
Record crawl_environment : Type := mk_env {
  mons : list monster;
  grid : coord_def -> dungeon_feature_type;
  item : list item_def;
  level_flags : Z;
  dactions_done : nat
}.

(** The globals of the game that the module touches, and the calls it has
    made so far, oldest first. *)
Record world : Type := mk_world {
  you : player;
  env : crawl_environment;
  travel_cache : list (level_id * LevelInfo);
  calls : list event
}.

(** The outcome of a procedure that may fail an ASSERT; [OutOfFuel] is the
    outcome of a loop bounded in advance that exhausts its bound. *)
Inductive result (A : Type) : Type :=
  | Ok (a : A)
  | AssertFail
  | OutOfFuel.
Arguments Ok {A} a.
Arguments AssertFail {A}.
Arguments OutOfFuel {A}.

(** ** What other translation units provide *)

Class mon_util : Type := {
  (* monster.cc *)
  wont_attack : monster -> bool;
  friendly : monster -> bool;
  is_holy : monster -> bool;
  is_unholy : monster -> bool;
  is_evil : monster -> bool;
  is_unclean : monster -> bool;
  is_chaotic : monster -> bool;
  is_actual_spellcaster : monster -> bool;
  (* religion.cc, mon-util.cc, mon-stuff.cc *)
  is_good_god : god_type -> bool;
  is_yred_undead_slave : monster -> bool;
  is_fellow_slime : monster -> bool;
  mons_is_god_gift : monster -> god_type -> bool;
  mons_is_plant : monster -> bool;
  mons_is_slime : monster -> bool;
  mons_enslaved_soul : monster -> bool;
  (* enum.h: bits of monster::flags and of env.level_flags, a sub_type *)
  MF_BAND_MEMBER : Z;
  MF_ATT_CHANGE_ATTEMPT : Z;
  MF_NAME_REPLACE : Z;
  MF_NAME_DESCRIPTOR : Z;
  MF_NAME_NOCORPSE : Z;
  LFLAG_NO_TELE_CONTROL : Z;
  CORPSE_BODY : Z;
  (* coordit.cc: the positions that [rectangle_iterator ri(d)] visits, in
     the order of the visit *)
  rectangle_iterator : Z -> list coord_def
}.

(** ** State updates *)

Definition set_mons (ms : list monster) (e : crawl_environment) :=
  mk_env ms (grid e) (item e) (level_flags e) (dactions_done e).
Definition set_grid (g : coord_def -> dungeon_feature_type)
    (e : crawl_environment) :=
  mk_env (mons e) g (item e) (level_flags e) (dactions_done e).
Definition set_item (it : list item_def) (e : crawl_environment) :=
  mk_env (mons e) (grid e) it (level_flags e) (dactions_done e).
Definition set_level_flags (f : Z) (e : crawl_environment) :=
  mk_env (mons e) (grid e) (item e) f (dactions_done e).
Definition set_dactions_done (n : nat) (e : crawl_environment) :=
  mk_env (mons e) (grid e) (item e) (level_flags e) n.

Definition with_env (f : crawl_environment -> crawl_environment)
    (w : world) : world :=
  mk_world (you w) (f (env w)) (travel_cache w) (calls w).
Definition with_dactions (l : list daction_type) (w : world) : world :=
  mk_world (mk_player l (where_are_you (you w)) (depth (you w)))
           (env w) (travel_cache w) (calls w).
Definition with_travel_cache (tc : list (level_id * LevelInfo))
    (w : world) : world :=
  mk_world (you w) (env w) tc (calls w).

(** A call to another unit: appended to the calls made so far. *)
Definition call (evs : list event) (w : world) : world :=
  mk_world (you w) (env w) (travel_cache w) (calls w ++ evs).

(** [menv], [grd] and [mitm] are the arrays of [env]. *)
Definition menv (w : world) : list monster := mons (env w).
Definition grd (w : world) (c : coord_def) : dungeon_feature_type :=
  grid (env w) c.
Definition mitm (w : world) : list item_def := item (env w).

(** [grd(c) = f] *)
Definition grd_assign (c : coord_def) (f : dungeon_feature_type)
    (w : world) : world :=
  with_env (set_grid (fun c' => if decide (c' = c) then f else grd w c')) w.

(** ** Helpers of other units, with an effect on the state above *)

(** Modelled from the spec: [testbits] is a macro of another header; a
    band-membership test on the bit field: all bits of [test] are set. *)
Definition testbits (fl test : Z) : bool := (Z.land fl test =? test)%Z.

(** Modelled from the spec: [monster::has_ench] (monster.cc); the monster
    carries the enchantment. *)
Definition has_ench (mon : monster) (e : enchant_type) : bool :=
  bool_decide (e ∈ enchantments mon).

(** Modelled from the spec: [monster::del_ench] (monster.cc); "strip any
    charm-style enchantment": the enchantment is taken off the monster. *)
Definition del_ench (e : enchant_type) (mon : monster) : monster :=
  mk_monster (type mon) (alive mon) (attitude mon) (behaviour mon) (god mon)
    (flags mon) (filter (fun e' => e' ≠ e) (enchantments mon))
    (props mon) (mname mon).

(** Modelled from the spec: [CrawlHashTable::exists]; the key is in the
    property table. *)
Definition props_exists (mon : monster) (key : string) : bool :=
  bool_decide (key ∈ props mon).

(** Modelled from the spec: [player_in_branch] (player.cc); the player is
    in the given area. *)
Definition player_in_branch (b : branch_type) (w : world) : bool :=
  bool_decide (where_are_you (you w) = b).

(** Modelled from the spec: [unset_level_flags] (dungeon.cc) clears the
    given restriction of the level; what it does with its second argument
    is not known here, so the call is recorded with it. *)
Definition unset_level_flags (lflags : Z) (silent : bool) (w : world)
    : world :=
  call [unset_level_flags_call lflags silent]
    (with_env (set_level_flags
                 (Z.land (level_flags (env w)) (Z.lnot lflags))) w).

(** Modelled from the spec: [TravelCache::clear_da_counter] (travel.cc);
    "zeroes that kind's counter slot on every level-state the world
    currently tracks". *)
Definition clear_da_counter (c : daction_type)
    (tc : list (level_id * LevelInfo)) : list (level_id * LevelInfo) :=
  map (fun il : level_id * LevelInfo =>
         (fst il, mk_LevelInfo (<[Z.to_nat c := 0]> (da_counters (snd il)))))
      tc.

(** Field assignments on a monster. *)
Definition set_attitude (a : mon_attitude_type) (mon : monster) : monster :=
  mk_monster (type mon) (alive mon) a (behaviour mon) (god mon) (flags mon)
    (enchantments mon) (props mon) (mname mon).
Definition set_behaviour (b : beh_type) (mon : monster) : monster :=
  mk_monster (type mon) (alive mon) (attitude mon) b (god mon) (flags mon)
    (enchantments mon) (props mon) (mname mon).
Definition set_flags (f : Z) (mon : monster) : monster :=
  mk_monster (type mon) (alive mon) (attitude mon) (behaviour mon) (god mon)
    f (enchantments mon) (props mon) (mname mon).
Definition set_mname (s : string) (mon : monster) : monster :=
  mk_monster (type mon) (alive mon) (attitude mon) (behaviour mon) (god mon)
    (flags mon) (enchantments mon) (props mon) s.

(** Modelled from the spec: [monster_die] (mon-stuff.cc) with a dismissal
    as the cause; the monster "is removed from the world": it is no longer
    alive. *)
Definition dismissed (mon : monster) : monster :=
  mk_monster (type mon) false (attitude mon) (behaviour mon) (god mon)
    (flags mon) (enchantments mon) (props mon) (mname mon).

(** ** Iteration over the monsters of the level *)

(** The body of a [for (monster_iterator mi; mi; ++mi)] loop: given the
    index of [*mi] and the monster, the monster as the body leaves it and
    the calls the body makes.  Every loop body of dactions.cc is of this
    kind: it assigns to members of [*mi] and calls other units. *)
Definition mon_body : Type := nat -> monster -> monster * list event.

(** Modelled from the spec: [monster_iterator] (mon-iter.cc) enumerates
    the living monsters of the level, and must bear with the removal of
    the current one (section 5).  It walks the slots of [menv] by index
    and stops at each slot that holds a living monster at the time it gets
    there. *)
Definition visit_slot (body : mon_body) (i : nat) (w : world) : world :=
  match menv w !! i with
  | Some mon =>
      if alive mon then
        let '(mon', evs) := body i mon in
        call evs (with_env (set_mons (<[i := mon']> (menv w))) w)
      else w
  | None => w
  end.

Fixpoint monster_iterator_from (body : mon_body) (slots : list nat)
    (w : world) : world :=
  match slots with
  | [] => w
  | i :: rest => monster_iterator_from body rest (visit_slot body i w)
  end.

Definition monster_iterator (body : mon_body) (w : world) : world :=
  monster_iterator_from body (seq 0 (length (menv w))) w.

Section Dactions.

Context {U : mon_util}.

(** ** [_mons_matches_counter] *)

Definition _mons_matches_counter (mon : option monster) (act : daction_type)
    : bool :=
  match mon with
  | None => false
  | Some mon =>
      if negb (alive mon) then false
      else
        match daction_of_int act with
        | Some DACT_ALLY_HOLY =>
            wont_attack mon && is_good_god (god mon)
        | Some DACT_ALLY_UNHOLY_EVIL =>
            wont_attack mon && (is_unholy mon || is_evil mon)
        | Some DACT_ALLY_UNCLEAN_CHAOTIC =>
            wont_attack mon && (is_unclean mon || is_chaotic mon)
        | Some DACT_ALLY_SPELLCASTER =>
            wont_attack mon && is_actual_spellcaster mon
        | Some DACT_ALLY_YRED_SLAVE =>
            is_yred_undead_slave mon
        | Some DACT_ALLY_BEOGH =>
            wont_attack mon && mons_is_god_gift mon GOD_BEOGH
        | Some DACT_ALLY_SLIME =>
            is_fellow_slime mon
        | Some DACT_ALLY_PLANT =>
            mons_is_plant mon
        (* Not a stored counter: *)
        | Some DACT_ALLY_TROG =>
            friendly mon && mons_is_god_gift mon GOD_TROG
        | Some DACT_HOLY_PETS_GO_NEUTRAL =>
            friendly mon
            && negb (has_ench mon ENCH_CHARM)
            && is_holy mon
            && mons_is_god_gift mon GOD_SHINING_ONE
        | Some DACT_PIKEL_SLAVES =>
            bool_decide (type mon = MONS_SLAVE)
            && testbits (flags mon) MF_BAND_MEMBER
            && props_exists mon "pikel_band"
            && negb (String.eqb (mname mon) "freed slave")
        | _ => false
        end
  end.

(** ** [update_da_counters] *)

(** [for (int act = 0; act < NUM_DA_COUNTERS; act++)] *)
Definition counter_indices : list nat := seq 0 (Z.to_nat NUM_DA_COUNTERS).

(** [lev->da_counters[act] = n] and [lev->da_counters[act]++] *)
Definition da_counter_assign (act n : nat) (lev : LevelInfo) : LevelInfo :=
  mk_LevelInfo (<[act := n]> (da_counters lev)).
Definition da_counter_incr (act : nat) (lev : LevelInfo) : LevelInfo :=
  mk_LevelInfo (alter S act (da_counters lev)).

(** The first loop: every slot is set to zero. *)
Definition zero_counters (lev : LevelInfo) : LevelInfo :=
  fold_left (fun l act => da_counter_assign act 0 l) counter_indices lev.

(** The inner loop of the second: one monster is tried against every
    counted kind. *)
Definition count_monster (mi : monster) (lev : LevelInfo) : LevelInfo :=
  fold_left
    (fun l act =>
       if _mons_matches_counter (Some mi) (Z.of_nat act)
       then da_counter_incr act l else l)
    counter_indices lev.

(** The monsters scanned are those of the active level, [menv]; none is
    changed, so the iterator stops at exactly the living ones. *)
Definition update_da_counters (w : world) (lev : LevelInfo) : LevelInfo :=
  fold_left (fun l mi => if alive mi then count_monster mi l else l)
            (menv w) (zero_counters lev).

(** ** [_apply_daction] *)

(** [flags &= ~bits] and [flags |= bits] *)
Definition flags_clear (bits : Z) (mon : monster) : monster :=
  set_flags (Z.land (flags mon) (Z.lnot bits)) mon.
Definition flags_set (bits : Z) (mon : monster) : monster :=
  set_flags (Z.lor (flags mon) bits) mon.

(** The body of the loop shared by the nine "go hostile" kinds. *)
Definition go_hostile (act : daction_type) : mon_body := fun mi mon =>
  if _mons_matches_counter (Some mon) act then
    let mon := set_attitude ATT_HOSTILE mon in
    let mon := del_ench ENCH_CHARM mon in
    let evs := [behaviour_event mi ME_ALERT; mons_att_changed mi] in
    (* If you reconvert to Fedhas/Jiyva, plants/slimes will love you
       again. *)
    let mon :=
      if (act =? DACT_ALLY_PLANT)%Z || (act =? DACT_ALLY_SLIME)%Z
      then flags_clear MF_ATT_CHANGE_ATTEMPT mon else mon in
    (* No global message for Trog. *)
    let evs :=
      if (act =? DACT_ALLY_TROG)%Z
      then evs ++ [simple_monster_message mi " turns against you!"]
      else evs in
    (mon, evs)
  else (mon, []).

Definition souls_poof : mon_body := fun mi mon =>
  if mons_enslaved_soul mon then
    (dismissed mon,
     [simple_monster_message mi " is freed."; monster_die mi KILL_DISMISSED])
  else (mon, []).

Definition holy_new_attempt : mon_body := fun mi mon =>
  if is_holy mon then (flags_clear MF_ATT_CHANGE_ATTEMPT mon, [])
  else (mon, []).

Definition slime_new_attempt : mon_body := fun mi mon =>
  if mons_is_slime mon then (flags_clear MF_ATT_CHANGE_ATTEMPT mon, [])
  else (mon, []).

(** The body of the loop shared by the two "go neutral" kinds. *)
Definition go_neutral (act : daction_type) : mon_body := fun mi mon =>
  if _mons_matches_counter (Some mon) act then
    (* monster changes attitude *)
    let mon := set_attitude ATT_GOOD_NEUTRAL mon in
    let evs := [mons_att_changed mi] in
    let '(mon, evs) :=
      if (act =? DACT_PIKEL_SLAVES)%Z then
        (set_mname "freed slave"
           (flags_set (Z.lor (Z.lor MF_NAME_REPLACE MF_NAME_DESCRIPTOR)
                             MF_NAME_NOCORPSE) mon),
         evs)
      else
        (mon, evs ++ [simple_monster_message mi " becomes indifferent."]) in
    (set_behaviour BEH_WANDER mon, evs)
  else (mon, []).

(** [for (rectangle_iterator ri(1); ri; ++ri)] of DACT_REMOVE_JIYVA_ALTARS,
    and its body. *)
Definition altar_to_floor (w : world) (ri : coord_def) : world :=
  if decide (grd w ri = DNGN_ALTAR_JIYVA)
  then grd_assign ri DNGN_FLOOR w else w.

Definition remove_jiyva_altars (w : world) : world :=
  fold_left altar_to_floor (rectangle_iterator 1) w.

(** [for (int i = 0; i < MAX_ITEMS; i++)] of DACT_ROT_CORPSES, and its
    body; [mitm] has MAX_ITEMS slots. *)
Definition rot_slot (w : world) (i : nat) : world :=
  match mitm w !! i with
  | Some it =>
      if bool_decide (base_type it = OBJ_CORPSES)
         && (sub_type it =? CORPSE_BODY)%Z
      then (* thoroughly rotten *)
        with_env
          (set_item
             (<[i := mk_item (base_type it) (sub_type it) 1]> (mitm w)))
          w
      else w
  | None => w
  end.

Definition rot_corpses (w : world) : world :=
  fold_left rot_slot (seq 0 (length (mitm w))) w.

Definition _apply_daction (act : daction_type) (w : world) : result world :=
  if negb ((0 <=? act)%Z && (act <? NUM_DACTIONS)%Z) then AssertFail
  else
    match daction_of_int act with
    | Some DACT_ALLY_HOLY
    | Some DACT_ALLY_UNHOLY_EVIL
    | Some DACT_ALLY_UNCLEAN_CHAOTIC
    | Some DACT_ALLY_SPELLCASTER
    | Some DACT_ALLY_YRED_SLAVE
    | Some DACT_ALLY_BEOGH
    | Some DACT_ALLY_SLIME
    | Some DACT_ALLY_PLANT
    | Some DACT_ALLY_TROG =>
        Ok (monster_iterator (go_hostile act) w)
    | Some DACT_OLD_ENSLAVED_SOULS_POOF =>
        Ok (monster_iterator souls_poof w)
    | Some DACT_HOLY_NEW_ATTEMPT =>
        Ok (monster_iterator holy_new_attempt w)
    | Some DACT_SLIME_NEW_ATTEMPT =>
        Ok (monster_iterator slime_new_attempt w)
    | Some DACT_HOLY_PETS_GO_NEUTRAL
    | Some DACT_PIKEL_SLAVES =>
        Ok (monster_iterator (go_neutral act) w)
    | Some DACT_SHUFFLE_DECKS =>
        Ok (call [shuffle_all_decks_on_level] w)
    | Some DACT_REAUTOMAP =>
        Ok (call [reautomap_level] w)
    | Some DACT_REMOVE_JIYVA_ALTARS =>
        Ok (remove_jiyva_altars w)
    | Some DACT_ROT_CORPSES =>
        Ok (rot_corpses w)
    | Some DACT_TOMB_CTELE =>
        if player_in_branch BRANCH_TOMB w
        then Ok (unset_level_flags LFLAG_NO_TELE_CONTROL
                   (negb (depth (you w) =? 3)%Z) w)
        else Ok w
    | Some NUM_DA_COUNTERS
    | Some NUM_DACTIONS => Ok w
    | None => Ok w
    end.

(** ** [catchup_dactions] *)

(** [env.dactions_done++] *)
Definition advance_cursor (w : world) : world :=
  with_env (set_dactions_done (S (dactions_done (env w)))) w.

(** The while loop, run for at most [fuel] iterations.  The cursor is
    incremented when the entry is read, before the entry is applied. *)
Fixpoint catchup_loop (fuel : nat) (w : world) : result world :=
  if dactions_done (env w) <? length (dactions (you w)) then
    match fuel with
    | O => OutOfFuel
    | S fuel =>
        let act := dactions (you w) !!! dactions_done (env w) in
        let w := advance_cursor w in
        match _apply_daction act w with
        | Ok w => catchup_loop fuel w
        | AssertFail => AssertFail
        | OutOfFuel => OutOfFuel
        end
    end
  else Ok w.

(** The entries of the log that the active level has not seen yet. *)
Definition pending (w : world) : list daction_type :=
  drop (dactions_done (env w)) (dactions (you w)).

(** One iteration for each pending entry is enough ([catchup_returns]). *)
Definition catchup_dactions (w : world) : result world :=
  catchup_loop (length (pending w)) w.

(** ** [add_daction] *)

Definition add_daction (act : daction_type) (w : world) : result world :=
  let w := with_dactions (dactions (you w) ++ [act]) w in
  (* If we're removing a counted monster type, zero the counter even though
     it hasn't been actually removed from the levels yet. *)
  let w :=
    if (act <? NUM_DA_COUNTERS)%Z
    then with_travel_cache (clear_da_counter act (travel_cache w)) w
    else w in
  (* Immediately apply it to the current level. *)
  catchup_dactions w.

(** ** Reading the counters and the log *)

(** The number of living monsters that the matcher accepts for a kind. *)
Definition matching_alive (ms : list monster) (k : daction_type) : nat :=
  length (filter (fun mon => alive mon = true
                             ∧ _mons_matches_counter (Some mon) k = true) ms).

(** The entries applied one after the other, first to last, the cursor
    stepping over each before it is applied. *)
Fixpoint replay (acts : list daction_type) (w : world) : result world :=
  match acts with
  | [] => Ok w
  | act :: acts =>
      match _apply_daction act (advance_cursor w) with
      | Ok w => replay acts w
      | AssertFail => AssertFail
      | OutOfFuel => OutOfFuel
      end
  end.

End Dactions.

(** ** Auxiliary definitions used in the statements *)

(** The world with another log and another cursor, everything else kept. *)
Definition with_log (l : list daction_type) (n : nat) (w : world) : world :=
  with_env (set_dactions_done n) (with_dactions l w).

Definition result_map {A B : Type} (f : A -> B) (r : result A) : result B :=
  match r with
  | Ok a => Ok (f a)
  | AssertFail => AssertFail
  | OutOfFuel => OutOfFuel
  end.

Definition result_bind {A B : Type} (r : result A) (f : A -> result B)
    : result B :=
  match r with
  | Ok a => f a
  | AssertFail => AssertFail
  | OutOfFuel => OutOfFuel
  end.

(** What one visit of the iterator leaves in a slot, and the calls it
    makes there. *)
Definition visited (body : mon_body) (i : nat) (mon : monster) : monster :=
  if alive mon then fst (body i mon) else mon.
Definition visit_calls (body : mon_body) (ms : list monster) (i : nat)
    : list event :=
  match ms !! i with
  | Some mon => if alive mon then snd (body i mon) else []
  | None => []
  end.

(** The kinds that share the "go hostile" loop of [_apply_daction]. *)
Definition hostility_kinds : list daction_enumerator :=
  [DACT_ALLY_HOLY; DACT_ALLY_UNHOLY_EVIL; DACT_ALLY_UNCLEAN_CHAOTIC;
   DACT_ALLY_SPELLCASTER; DACT_ALLY_YRED_SLAVE; DACT_ALLY_BEOGH;
   DACT_ALLY_SLIME; DACT_ALLY_PLANT; DACT_ALLY_TROG].

(** The kinds for which [_mons_matches_counter] has a case. *)
Definition matcher_kinds : list daction_enumerator :=
  hostility_kinds ++ [DACT_HOLY_PETS_GO_NEUTRAL; DACT_PIKEL_SLAVES].

(** The cursor is within the log, and every level the travel cache tracks
    has its NUM_DA_COUNTERS counters. *)
Definition cursor_in_log (w : world) : Prop :=
  dactions_done (env w) <= length (dactions (you w)).
Definition counters_sized (tc : list (level_id * LevelInfo)) : Prop :=
  Forall (fun il => length (da_counters (snd il)) = Z.to_nat NUM_DA_COUNTERS)
         tc.

(** The part of the world outside the active level: the player (with the
    log), the travel cache and the cursor. *)
Definition outside_kept (w w' : world) : Prop :=
  you w' = you w
  /\ travel_cache w' = travel_cache w
  /\ dactions_done (env w') = dactions_done (env w).

(** The kinds that pass the ASSERT of [_apply_daction]. *)
Definition in_range (act : daction_type) : Prop :=
  (0 <= act < NUM_DACTIONS)%Z.

(** The monster that a call is made for, if it is made for one. *)
Definition event_index (ev : event) : option nat :=
  match ev with
  | behaviour_event mi _ => Some mi
  | mons_att_changed mi => Some mi
  | simple_monster_message mi _ => Some mi
  | monster_die mi _ => Some mi
  | shuffle_all_decks_on_level => None
  | reautomap_level => None
  | unset_level_flags_call _ _ => None
  end.

(** The kinds whose case in [_apply_daction] is a loop over the monsters. *)
Definition monster_kinds : list daction_enumerator :=
  hostility_kinds
  ++ [DACT_OLD_ENSLAVED_SOULS_POOF; DACT_HOLY_NEW_ATTEMPT;
      DACT_SLIME_NEW_ATTEMPT; DACT_HOLY_PETS_GO_NEUTRAL; DACT_PIKEL_SLAVES].

(** The kinds whose case in [_apply_daction] calls no other unit: all
    they do is written in dactions.cc. *)
Definition call_free_kinds : list daction_enumerator :=
  [DACT_HOLY_NEW_ATTEMPT; DACT_SLIME_NEW_ATTEMPT; DACT_REMOVE_JIYVA_ALTARS;
   DACT_ROT_CORPSES].

(** An item as DACT_ROT_CORPSES leaves it. *)
Definition rotten {U : mon_util} (it : item_def) : item_def :=
  if bool_decide (base_type it = OBJ_CORPSES)
     && (sub_type it =? CORPSE_BODY)%Z
  then mk_item (base_type it) (sub_type it) 1
  else it.

(** The living monsters of a level. *)
Definition living (ms : list monster) : list monster :=
  filter (fun mon => alive mon = true) ms.

(** ** A small level, for the scenarios of the specification *)

Module Scenario.

(** Grid dimensions and the rectangle iterator as crawl has them: the
    iterator keeps the given distance from each border. *)
Definition GXM : Z := 80.
Definition GYM : Z := 70.
Definition range (lo hi : Z) : list Z :=
  map (fun k => (lo + Z.of_nat k)%Z) (seq 0 (Z.to_nat (hi - lo + 1))).
Definition rectangle (d : Z) : list coord_def :=
  y ← range d (GYM - d - 1); x ← range d (GXM - d - 1); [(x, y)].

Definition MONS_ANGEL : monster_type := MONS_other 1.
Definition MONS_ORC : monster_type := MONS_other 2.
Definition MONS_PLANT : monster_type := MONS_other 3.
Definition MONS_JELLY : monster_type := MONS_other 4.
Definition MONS_SPECTRAL_THING : monster_type := MONS_other 5.
Definition GOD_NO_GOD : god_type := GOD_other 0.
Definition GOD_ZIN : god_type := GOD_other 1.
Definition GOD_YREDELEMNUL : god_type := GOD_other 2.
Definition DNGN_ALTAR_ZIN : dungeon_feature_type := DNGN_other 1.
Definition DNGN_ROCK_WALL : dungeon_feature_type := DNGN_other 2.

Definition rules : mon_util := {|
  wont_attack mon :=
    match attitude mon with
    | ATT_HOSTILE | ATT_NEUTRAL => false
    | _ => true
    end;
  friendly mon :=
    bool_decide (attitude mon = ATT_FRIENDLY) || has_ench mon ENCH_CHARM;
  is_holy mon := bool_decide (type mon = MONS_ANGEL);
  is_unholy mon := false;
  is_evil mon := bool_decide (type mon = MONS_ORC);
  is_unclean mon := false;
  is_chaotic mon := false;
  is_actual_spellcaster mon := false;
  is_good_god g := bool_decide (g = GOD_SHINING_ONE) || bool_decide (g = GOD_ZIN);
  is_yred_undead_slave mon :=
    bool_decide (attitude mon = ATT_FRIENDLY)
    && bool_decide (god mon = GOD_YREDELEMNUL);
  is_fellow_slime mon :=
    bool_decide (attitude mon = ATT_STRICT_NEUTRAL)
    && bool_decide (type mon = MONS_JELLY);
  mons_is_god_gift mon g := bool_decide (god mon = g);
  mons_is_plant mon := bool_decide (type mon = MONS_PLANT);
  mons_is_slime mon := bool_decide (type mon = MONS_JELLY);
  mons_enslaved_soul mon := bool_decide (type mon = MONS_SPECTRAL_THING);
  MF_BAND_MEMBER := 8;
  MF_ATT_CHANGE_ATTEMPT := 2048;
  MF_NAME_REPLACE := 4096;
  MF_NAME_DESCRIPTOR := 8192;
  MF_NAME_NOCORPSE := 16384;
  LFLAG_NO_TELE_CONTROL := 1;
  CORPSE_BODY := 0;
  rectangle_iterator := rectangle
|}.

Definition a_monster (t : monster_type) (a : mon_attitude_type) (g : god_type)
    (ench : list enchant_type) : monster :=
  mk_monster t true a (BEH_other 0) g 0 ench [] "".

(** The hostility cascade: a friendly angel of the Shining One, a hostile
    one, and a friendly godless orc. *)
Definition holy_mons : list monster :=
  [a_monster MONS_ANGEL ATT_FRIENDLY GOD_SHINING_ONE [];
   a_monster MONS_ANGEL ATT_HOSTILE GOD_SHINING_ONE [];
   a_monster MONS_ORC ATT_FRIENDLY GOD_NO_GOD []].

(** Gifts of Trog: a friendly one and a hostile one. *)
Definition trog_mons : list monster :=
  [a_monster MONS_ORC ATT_FRIENDLY GOD_TROG [];
   a_monster MONS_ORC ATT_HOSTILE GOD_TROG []].

(** Holy pets: one kept by its own will, one kept by a charm. *)
Definition pet_mons : list monster :=
  [a_monster MONS_ANGEL ATT_FRIENDLY GOD_SHINING_ONE [];
   a_monster MONS_ANGEL ATT_FRIENDLY GOD_SHINING_ONE [ENCH_CHARM]].

(** Altar removal: two altars of Jiyva and one of Zin, inside rock. *)
Definition altar_grid : coord_def -> dungeon_feature_type := fun c =>
  if decide (c = (5, 5)%Z) then DNGN_ALTAR_JIYVA
  else if decide (c = (10, 12)%Z) then DNGN_ALTAR_JIYVA
  else if decide (c = (20, 7)%Z) then DNGN_ALTAR_ZIN
  else DNGN_ROCK_WALL.

Definition two_levels : list (level_id * LevelInfo) :=
  [((BRANCH_other 0, 1%Z), mk_LevelInfo [1; 0; 0; 0; 0; 0; 0; 0]);
   ((BRANCH_TOMB, 2%Z), mk_LevelInfo [3; 1; 0; 2; 0; 0; 0; 1])].

Definition a_world (log : list daction_type) (done : nat)
    (ms : list monster) (br : branch_type) (d : Z) : world :=
  mk_world (mk_player log br d)
           (mk_env ms altar_grid [] 1%Z done)
           two_levels [].

Definition holy_level : world := a_world [] 0 holy_mons (BRANCH_other 0) 1.
Definition trog_level : world := a_world [] 0 trog_mons (BRANCH_other 0) 1.
Definition pet_level : world := a_world [] 0 pet_mons (BRANCH_other 0) 1.
Definition tomb_level : world := a_world [] 0 [] BRANCH_TOMB 3.


(** The band of Pikel: two slaves of the band, one of them freed
    already, and a slave that never was in the band. *)
Definition a_slave (fl : Z) (keys : list string) (name : string) : monster :=
  mk_monster MONS_SLAVE true ATT_HOSTILE (BEH_other 0) GOD_NO_GOD fl [] keys
             name.
Definition pikel_mons : list monster :=
  [a_slave 8 ["pikel_band"] "";
   a_slave 8 ["pikel_band"] "freed slave";
   a_slave 0 [] ""].
Definition pikel_level : world := a_world [] 0 pikel_mons (BRANCH_other 0) 1.

(** An enslaved soul next to an ordinary ally. *)
Definition soul_mons : list monster :=
  [a_monster MONS_SPECTRAL_THING ATT_FRIENDLY GOD_YREDELEMNUL [];
   a_monster MONS_ORC ATT_FRIENDLY GOD_NO_GOD []].
Definition soul_level : world := a_world [] 0 soul_mons (BRANCH_other 0) 1.

(** A plant that was once asked to change sides. *)
Definition plant_mons : list monster :=
  [mk_monster MONS_PLANT true ATT_FRIENDLY (BEH_other 0) GOD_NO_GOD 2049
              [] [] ""].
Definition plant_level : world := a_world [] 0 plant_mons (BRANCH_other 0) 1.

(** A fresh corpse, a skeleton and something that is no corpse. *)
Definition some_items : list item_def :=
  [mk_item OBJ_CORPSES 0 100; mk_item OBJ_CORPSES 1 100;
   mk_item (OBJ_other 0) 0 7].
Definition item_level : world :=
  mk_world (mk_player [] (BRANCH_other 0) 1)
           (mk_env holy_mons altar_grid some_items 1%Z 0)
           two_levels [].

End Scenario.

(** * Properties *)

(** ** The enumeration *)

Lemma daction_of_int_of (e : daction_enumerator) :
  daction_of_int e = Some e.
Proof. destruct e; reflexivity. Qed.

Lemma daction_of_int_Some (act : daction_type) (e : daction_enumerator) :
  daction_of_int act = Some e -> act = e.
Proof.
  unfold daction_of_int.
  repeat (match goal with
          | |- context [match ?x with _ => _ end] => destruct x
          end; try discriminate);
    intros [= <-]; reflexivity.
Qed.

Lemma daction_of_int_range (act : daction_type) (e : daction_enumerator) :
  daction_of_int act = Some e -> (0 <= act <= NUM_DACTIONS)%Z.
Proof.
  intros H. apply daction_of_int_Some in H. subst act.
  destruct e; cbn; lia.
Qed.

(** ** The monster iterator *)

Section Iterator.

Variable body : mon_body.

Lemma visit_slot_frame i w :
  you (visit_slot body i w) = you w
  /\ travel_cache (visit_slot body i w) = travel_cache w
  /\ grid (env (visit_slot body i w)) = grid (env w)
  /\ item (env (visit_slot body i w)) = item (env w)
  /\ level_flags (env (visit_slot body i w)) = level_flags (env w)
  /\ dactions_done (env (visit_slot body i w)) = dactions_done (env w).
Proof.
  unfold visit_slot.
  destruct (menv w !! i) as [mon|]; [|tauto].
  destruct (alive mon); [|tauto].
  destruct (body i mon); cbn; tauto.
Qed.

Lemma visit_slot_lookup i w j :
  menv (visit_slot body i w) !! j
  = if decide (j = i) then visited body i <$> (menv w !! i)
    else menv w !! j.
Proof.
  unfold visit_slot, visited.
  destruct (menv w !! i) as [mon|] eqn:Hi; cbn.
  - destruct (alive mon) eqn:A.
    + destruct (body i mon) as [mon' evs] eqn:B; cbn.
      pose proof (lookup_lt_Some _ _ _ Hi) as Hlt.
      unfold menv in *; cbn.
      case_decide as Hj.
      * subst j. now rewrite list_lookup_insert_eq.
      * now rewrite list_lookup_insert_ne by congruence.
    + case_decide; subst; cbn; congruence.
  - case_decide; subst; cbn; congruence.
Qed.

Lemma visit_slot_calls i w :
  calls (visit_slot body i w) = calls w ++ visit_calls body (menv w) i.
Proof.
  unfold visit_slot, visit_calls.
  destruct (menv w !! i) as [mon|]; [|now rewrite app_nil_r].
  destruct (alive mon); [|now rewrite app_nil_r].
  destruct (body i mon); reflexivity.
Qed.

Lemma visit_slot_with_log l n i w :
  visit_slot body i (with_log l n w) = with_log l n (visit_slot body i w).
Proof.
  unfold visit_slot. change (menv (with_log l n w)) with (menv w).
  destruct (menv w !! i) as [mon|]; [|reflexivity].
  destruct (alive mon); [|reflexivity].
  destruct (body i mon); reflexivity.
Qed.

Lemma monster_iterator_from_frame slots : forall w,
  you (monster_iterator_from body slots w) = you w
  /\ travel_cache (monster_iterator_from body slots w) = travel_cache w
  /\ grid (env (monster_iterator_from body slots w)) = grid (env w)
  /\ item (env (monster_iterator_from body slots w)) = item (env w)
  /\ level_flags (env (monster_iterator_from body slots w))
     = level_flags (env w)
  /\ dactions_done (env (monster_iterator_from body slots w))
     = dactions_done (env w).
Proof.
  induction slots as [|i rest IH]; intros w; cbn; [tauto|].
  destruct (IH (visit_slot body i w)) as (-> & -> & -> & -> & -> & ->).
  apply visit_slot_frame.
Qed.

Lemma monster_iterator_from_lookup slots : forall w j,
  NoDup slots ->
  menv (monster_iterator_from body slots w) !! j
  = if decide (j ∈ slots) then visited body j <$> (menv w !! j)
    else menv w !! j.
Proof.
  induction slots as [|i rest IH]; intros w j Hnd; cbn.
  - case_decide as H; [inversion H | reflexivity].
  - apply NoDup_cons in Hnd as [Hi Hrest].
    rewrite IH by assumption. rewrite visit_slot_lookup.
    destruct (decide (j = i)) as [->|Hne].
    + rewrite (decide_False (P := i ∈ rest)) by assumption.
      rewrite (decide_True (P := i ∈ i :: rest)) by apply list_elem_of_here.
      reflexivity.
    + destruct (decide (j ∈ rest)) as [Hj|Hj].
      * now rewrite (decide_True (P := j ∈ i :: rest))
          by now apply list_elem_of_further.
      * rewrite (decide_False (P := j ∈ i :: rest)); [reflexivity|].
        rewrite elem_of_cons. tauto.
Qed.

Lemma monster_iterator_from_calls slots : forall w,
  NoDup slots ->
  calls (monster_iterator_from body slots w)
  = calls w ++ concat (map (visit_calls body (menv w)) slots).
Proof.
  induction slots as [|i rest IH]; intros w Hnd; cbn.
  - now rewrite app_nil_r.
  - apply NoDup_cons in Hnd as [Hi Hrest].
    rewrite IH by assumption. rewrite visit_slot_calls, <- app_assoc.
    do 3 f_equal. apply map_ext_in. intros k Hk.
    unfold visit_calls. rewrite visit_slot_lookup.
    case_decide; [|reflexivity]. subst k.
    exfalso. apply Hi. now apply list_elem_of_In.
Qed.

Lemma monster_iterator_from_with_log l n slots : forall w,
  monster_iterator_from body slots (with_log l n w)
  = with_log l n (monster_iterator_from body slots w).
Proof.
  induction slots as [|i rest IH]; intros w; cbn; [reflexivity|].
  now rewrite visit_slot_with_log, IH.
Qed.

Lemma monster_iterator_frame w :
  you (monster_iterator body w) = you w
  /\ travel_cache (monster_iterator body w) = travel_cache w
  /\ grid (env (monster_iterator body w)) = grid (env w)
  /\ item (env (monster_iterator body w)) = item (env w)
  /\ level_flags (env (monster_iterator body w)) = level_flags (env w)
  /\ dactions_done (env (monster_iterator body w)) = dactions_done (env w).
Proof. apply monster_iterator_from_frame. Qed.

(** Each slot is visited once, whatever the other visits do. *)
Lemma monster_iterator_lookup w j :
  menv (monster_iterator body w) !! j = visited body j <$> (menv w !! j).
Proof.
  unfold monster_iterator.
  rewrite monster_iterator_from_lookup by apply NoDup_seq.
  case_decide as Hj; [reflexivity|].
  destruct (menv w !! j) eqn:E; [|reflexivity].
  exfalso. apply Hj. apply elem_of_seq.
  apply lookup_lt_Some in E. lia.
Qed.

Lemma monster_iterator_calls w :
  calls (monster_iterator body w)
  = calls w
    ++ concat (map (visit_calls body (menv w)) (seq 0 (length (menv w)))).
Proof. apply monster_iterator_from_calls, NoDup_seq. Qed.

Lemma monster_iterator_with_log l n w :
  monster_iterator body (with_log l n w)
  = with_log l n (monster_iterator body w).
Proof. apply monster_iterator_from_with_log. Qed.

(** A call is among those of the loop iff some visit makes it. *)
Lemma in_monster_iterator_calls w ev :
  In ev (concat (map (visit_calls body (menv w)) (seq 0 (length (menv w)))))
  <-> exists i mon,
        menv w !! i = Some mon /\ alive mon = true
        /\ In ev (snd (body i mon)).
Proof.
  rewrite <- flat_map_concat_map, in_flat_map. split.
  - intros (i & _ & Hev). unfold visit_calls in Hev.
    destruct (menv w !! i) as [mon|] eqn:E; [|contradiction].
    destruct (alive mon) eqn:A; [|contradiction]. eauto.
  - intros (i & mon & E & A & Hev). exists i. split.
    + apply in_seq. apply lookup_lt_Some in E. lia.
    + unfold visit_calls. now rewrite E, A.
Qed.

End Iterator.

(** ** What applying an entry keeps *)

Section Apply.

Context {U : mon_util}.

Lemma outside_kept_refl w : outside_kept w w.
Proof. repeat split. Qed.

Lemma outside_kept_trans w1 w2 w3 :
  outside_kept w1 w2 -> outside_kept w2 w3 -> outside_kept w1 w3.
Proof. unfold outside_kept. intuition congruence. Qed.

Lemma altar_to_floor_grd w ri c :
  grd (altar_to_floor w ri) c
  = if decide (c = ri /\ grd w ri = DNGN_ALTAR_JIYVA)
    then DNGN_FLOOR else grd w c.
Proof.
  unfold altar_to_floor.
  destruct (decide (grd w ri = DNGN_ALTAR_JIYVA)) as [E|E].
  - unfold grd_assign, grd at 1; cbn.
    destruct (decide (c = ri)) as [->|Hne].
    + now rewrite decide_True by tauto.
    + now rewrite decide_False by tauto.
  - now rewrite decide_False by tauto.
Qed.

Lemma altar_to_floor_kept w ri :
  outside_kept w (altar_to_floor w ri)
  /\ calls (altar_to_floor w ri) = calls w
  /\ menv (altar_to_floor w ri) = menv w
  /\ mitm (altar_to_floor w ri) = mitm w
  /\ level_flags (env (altar_to_floor w ri)) = level_flags (env w).
Proof.
  unfold altar_to_floor, outside_kept.
  destruct (decide (grd w ri = DNGN_ALTAR_JIYVA)); cbn; tauto.
Qed.

Lemma altar_to_floor_with_log l n w ri :
  altar_to_floor (with_log l n w) ri = with_log l n (altar_to_floor w ri).
Proof.
  unfold altar_to_floor.
  change (grd (with_log l n w) ri) with (grd w ri).
  destruct (decide (grd w ri = DNGN_ALTAR_JIYVA)); reflexivity.
Qed.

Lemma altar_fold_grd cells : forall w c,
  grd (fold_left altar_to_floor cells w) c
  = if decide (c ∈ cells /\ grd w c = DNGN_ALTAR_JIYVA)
    then DNGN_FLOOR else grd w c.
Proof.
  induction cells as [|ri rest IH]; intros w c; cbn [fold_left].
  - case_decide as H; [|reflexivity]. destruct H as [H _]. inversion H.
  - rewrite IH, altar_to_floor_grd.
    destruct (decide (c = ri)) as [->|Hne].
    + destruct (decide (grd w ri = DNGN_ALTAR_JIYVA)) as [E|E].
      * rewrite (decide_True (P := ri = ri /\ _)) by tauto.
        rewrite (decide_True (P := ri ∈ ri :: rest /\ _))
          by (split; [apply list_elem_of_here | assumption]).
        now case_decide.
      * rewrite (decide_False (P := ri = ri /\ _)) by tauto.
        rewrite (decide_False (P := ri ∈ ri :: rest /\ _)) by tauto.
        now rewrite decide_False by tauto.
    + rewrite (decide_False (P := c = ri /\ _)) by tauto.
      destruct (decide (c ∈ rest /\ grd w c = DNGN_ALTAR_JIYVA)) as [H|H].
      * rewrite decide_True; [reflexivity|].
        destruct H; split; [now apply list_elem_of_further | assumption].
      * rewrite decide_False; [reflexivity|].
        rewrite elem_of_cons. tauto.
Qed.

Lemma altar_fold_kept cells : forall w,
  outside_kept w (fold_left altar_to_floor cells w)
  /\ calls (fold_left altar_to_floor cells w) = calls w
  /\ menv (fold_left altar_to_floor cells w) = menv w
  /\ mitm (fold_left altar_to_floor cells w) = mitm w
  /\ level_flags (env (fold_left altar_to_floor cells w))
     = level_flags (env w).
Proof.
  induction cells as [|ri rest IH]; intros w; cbn [fold_left].
  - unfold outside_kept; tauto.
  - destruct (IH (altar_to_floor w ri)) as (Hk & -> & -> & -> & ->).
    destruct (altar_to_floor_kept w ri) as (Hk' & -> & -> & -> & ->).
    split; [|tauto]. eapply outside_kept_trans; eassumption.
Qed.

Lemma remove_jiyva_altars_with_log l n w :
  remove_jiyva_altars (with_log l n w) = with_log l n (remove_jiyva_altars w).
Proof.
  unfold remove_jiyva_altars.
  generalize (rectangle_iterator 1). intros cells. revert w.
  induction cells as [|ri rest IH]; intros w; cbn [fold_left]; [reflexivity|].
  now rewrite altar_to_floor_with_log, IH.
Qed.

Lemma rot_slot_kept w i :
  outside_kept w (rot_slot w i)
  /\ calls (rot_slot w i) = calls w
  /\ length (mitm (rot_slot w i)) = length (mitm w).
Proof.
  unfold rot_slot. destruct (mitm w !! i) as [it|]; [|now repeat split].
  destruct (_ && _); [|now repeat split].
  repeat split. unfold mitm; cbn. apply length_insert.
Qed.

Lemma rot_fold_kept idx : forall w,
  outside_kept w (fold_left rot_slot idx w)
  /\ calls (fold_left rot_slot idx w) = calls w.
Proof.
  induction idx as [|i rest IH]; intros w; cbn; [now repeat split|].
  destruct (IH (rot_slot w i)) as [Hk ->].
  destruct (rot_slot_kept w i) as (Hk' & -> & _).
  split; [|reflexivity]. eapply outside_kept_trans; eassumption.
Qed.

Lemma rot_fold_with_log l n idx : forall w,
  fold_left rot_slot idx (with_log l n w)
  = with_log l n (fold_left rot_slot idx w).
Proof.
  induction idx as [|i rest IH]; intros w; cbn; [reflexivity|].
  rewrite <- IH. f_equal. unfold rot_slot.
  change (mitm (with_log l n w)) with (mitm w).
  destruct (mitm w !! i) as [it|]; [|reflexivity].
  destruct (_ && _); reflexivity.
Qed.

(** Applying an entry changes neither the log nor the cursor nor the
    travel cache, and only adds to the calls made. *)
Lemma apply_daction_kept act w w' :
  _apply_daction act w = Ok w' ->
  outside_kept w w' /\ exists evs, calls w' = calls w ++ evs.
Proof.
  unfold _apply_daction.
  destruct (negb _); [discriminate|].
  destruct (daction_of_int act) as [e|]; [destruct e|];
    try (intros [= <-];
         first
           [ split; [apply outside_kept_refl|];
             exists []; now rewrite app_nil_r
           | destruct (monster_iterator_frame (go_hostile act) w)
               as (? & ? & _ & _ & _ & ?);
             split; [now repeat split|];
             eexists; apply monster_iterator_calls
           | destruct (monster_iterator_frame (go_neutral act) w)
               as (? & ? & _ & _ & _ & ?);
             split; [now repeat split|];
             eexists; apply monster_iterator_calls
           | split; [now repeat split|]; eexists; reflexivity ]).
  - destruct (monster_iterator_frame souls_poof w)
      as (? & ? & _ & _ & _ & ?).
    intros [= <-]. split; [now repeat split|].
    eexists; apply monster_iterator_calls.
  - destruct (monster_iterator_frame holy_new_attempt w)
      as (? & ? & _ & _ & _ & ?).
    intros [= <-]. split; [now repeat split|].
    eexists; apply monster_iterator_calls.
  - intros [= <-].
    destruct (altar_fold_kept (rectangle_iterator 1) w) as (Hk & Hc & _).
    split; [assumption|]. exists []. now rewrite app_nil_r.
  - intros [= <-]. unfold rot_corpses.
    destruct (rot_fold_kept (seq 0 (length (mitm w))) w) as [Hk Hc].
    split; [assumption|]. exists []. now rewrite app_nil_r.
  - destruct (player_in_branch BRANCH_TOMB w); intros [= <-].
    + split; [now repeat split|]. eexists; reflexivity.
    + split; [apply outside_kept_refl|]. exists []. now rewrite app_nil_r.
  - destruct (monster_iterator_frame slime_new_attempt w)
      as (? & ? & _ & _ & _ & ?).
    intros [= <-]. split; [now repeat split|].
    eexists; apply monster_iterator_calls.
Qed.

Lemma apply_daction_not_out_of_fuel act w :
  _apply_daction act w <> OutOfFuel.
Proof.
  unfold _apply_daction.
  destruct (negb _); [discriminate|].
  destruct (daction_of_int act) as [e|]; [destruct e|]; try discriminate.
  destruct (player_in_branch BRANCH_TOMB w); discriminate.
Qed.

(** The effect of an entry depends neither on the log nor on the cursor. *)
Lemma apply_daction_with_log act l n w :
  _apply_daction act (with_log l n w)
  = result_map (with_log l n) (_apply_daction act w).
Proof.
  unfold _apply_daction.
  destruct (negb _); [reflexivity|].
  destruct (daction_of_int act) as [e|]; [destruct e|]; cbn [result_map];
    rewrite ?monster_iterator_with_log, ?remove_jiyva_altars_with_log;
    try reflexivity.
  - unfold rot_corpses.
    change (mitm (with_log l n w)) with (mitm w).
    now rewrite rot_fold_with_log.
  - change (player_in_branch BRANCH_TOMB (with_log l n w))
      with (player_in_branch BRANCH_TOMB w).
    destruct (player_in_branch BRANCH_TOMB w); reflexivity.
Qed.

(** The cursor may as well be moved after the entry is applied. *)
Lemma apply_then_advance act w :
  _apply_daction act (advance_cursor w)
  = result_map advance_cursor (_apply_daction act w).
Proof.
  assert (Hw : advance_cursor w
               = with_log (dactions (you w)) (S (dactions_done (env w))) w)
    by (destruct w as [[] [] ? ?]; reflexivity).
  rewrite Hw, apply_daction_with_log.
  destruct (_apply_daction act w) as [w1| |] eqn:E; cbn [result_map];
    try reflexivity.
  apply apply_daction_kept in E as [(Hy & _ & Hd) _].
  rewrite <- Hy, <- Hd. destruct w1 as [[] [] ? ?]; reflexivity.
Qed.

End Apply.

(** ** The replay loop *)

Section Catchup.

Context {U : mon_util}.

Lemma pending_cons w :
  dactions_done (env w) < length (dactions (you w)) ->
  pending w
  = dactions (you w) !!! dactions_done (env w) :: pending (advance_cursor w).
Proof.
  intros Hlt. unfold pending; cbn.
  destruct (lookup_lt_is_Some_2 _ _ Hlt) as [act Hact].
  rewrite (list_lookup_total_correct _ _ _ Hact).
  now apply drop_S.
Qed.

Lemma pending_nil w :
  ~ dactions_done (env w) < length (dactions (you w)) -> pending w = [].
Proof. intros H. apply drop_ge. lia. Qed.

Lemma pending_kept w w' :
  outside_kept w w' -> pending w' = pending w.
Proof. intros (Hy & _ & Hd). unfold pending. now rewrite Hy, Hd. Qed.

Lemma replay_kept acts : forall w w',
  replay acts w = Ok w' ->
  you w' = you w
  /\ travel_cache w' = travel_cache w
  /\ dactions_done (env w') = dactions_done (env w) + length acts
  /\ exists evs, calls w' = calls w ++ evs.
Proof.
  induction acts as [|act acts IH]; intros w w'; cbn [replay].
  - intros [= <-]. repeat split; [cbn; lia|].
    exists []. now rewrite app_nil_r.
  - destruct (_apply_daction act (advance_cursor w)) as [w1| |] eqn:E;
      try discriminate.
    intros Hr. apply IH in Hr as (-> & -> & -> & evs & ->).
    apply apply_daction_kept in E as ((-> & -> & ->) & evs1 & ->).
    repeat split; [cbn; lia|].
    exists (evs1 ++ evs). now rewrite app_assoc.
Qed.

Lemma replay_app l1 l2 : forall w,
  replay (l1 ++ l2) w = result_bind (replay l1 w) (replay l2).
Proof.
  induction l1 as [|act l1 IH]; intros w; cbn; [reflexivity|].
  destruct (_apply_daction act (advance_cursor w)); cbn; auto.
Qed.

Lemma replay_not_out_of_fuel acts : forall w, replay acts w <> OutOfFuel.
Proof.
  induction acts as [|act acts IH]; intros w; cbn [replay]; [discriminate|].
  destruct (_apply_daction act (advance_cursor w)) eqn:E;
    [apply IH | discriminate |].
  now apply apply_daction_not_out_of_fuel in E.
Qed.

(** With an iteration for each pending entry at hand, the loop is the
    replay of the pending entries. *)
Lemma catchup_loop_replay fuel : forall w,
  length (pending w) <= fuel -> catchup_loop fuel w = replay (pending w) w.
Proof.
  induction fuel as [|fuel IH]; intros w Hf; cbn [catchup_loop];
    destruct (Nat.ltb_spec (dactions_done (env w))
                           (length (dactions (you w)))) as [Hlt|Hge].
  - rewrite pending_cons in Hf by assumption. cbn in Hf. lia.
  - rewrite pending_nil by lia. reflexivity.
  - rewrite pending_cons in Hf |- * by assumption.
    cbn [replay]. cbn [length] in Hf.
    destruct (_apply_daction _ (advance_cursor w)) as [w1| |] eqn:E;
      try reflexivity.
    apply apply_daction_kept in E as [Hk _].
    apply pending_kept in Hk. rewrite <- Hk in Hf |- *. apply IH. lia.
  - rewrite pending_nil by lia. reflexivity.
Qed.

Lemma catchup_replay w : catchup_dactions w = replay (pending w) w.
Proof. apply catchup_loop_replay. reflexivity. Qed.

(** The loop of [catchup_dactions] ends: it returns a world, or stops at
    a failed ASSERT. *)
Lemma catchup_returns w : catchup_dactions w <> OutOfFuel.
Proof. rewrite catchup_replay. apply replay_not_out_of_fuel. Qed.

Lemma catchup_kept w w' :
  catchup_dactions w = Ok w' ->
  you w' = you w
  /\ travel_cache w' = travel_cache w
  /\ dactions_done (env w') = dactions_done (env w) + length (pending w)
  /\ pending w' = []
  /\ exists evs, calls w' = calls w ++ evs.
Proof.
  rewrite catchup_replay. intros H.
  apply replay_kept in H as (Hy & Ht & Hd & Hc).
  repeat split; try assumption.
  unfold pending in *. rewrite Hy, Hd. apply drop_ge.
  rewrite length_drop. lia.
Qed.

Lemma catchup_nothing_pending w :
  pending w = [] -> catchup_dactions w = Ok w.
Proof. intros H. rewrite catchup_replay, H. reflexivity. Qed.

End Catchup.

(** ** Catch-up: idempotence and order *)

Section Claims_replay.

Context {U : mon_util}.

(** C1. Catch-up is idempotent per level.  Once a call to
    [catchup_dactions] has returned, nothing is pending, so that a second
    call with no new entry scheduled applies no entry and returns the very
    same world: entities, cursor, counters, grid and items, and no further
    call to the rest of the game.  With the cursor within the log it ends
    equal to the length of the log, and whatever is scheduled later is all
    that is pending then: no entry is applied a second time. *)
Theorem catchup_idempotent (w w' : world) :
  catchup_dactions w = Ok w' ->
  catchup_dactions w' = Ok w'
  /\ pending w' = []
  /\ (cursor_in_log w ->
      dactions_done (env w') = length (dactions (you w'))
      /\ forall ks,
           pending (with_dactions (dactions (you w') ++ ks) w') = ks).
Proof.
  intros H. apply catchup_kept in H as (Hy & _ & Hd & Hp & _).
  split; [now apply catchup_nothing_pending|].
  split; [assumption|].
  intros Hc. unfold cursor_in_log in Hc.
  assert (Hlen : dactions_done (env w') = length (dactions (you w'))).
  { rewrite Hd, Hy. unfold pending. rewrite length_drop. lia. }
  split; [assumption|].
  intros ks. unfold pending; cbn. rewrite Hlen.
  rewrite drop_app_length. reflexivity.
Qed.

(** C4. Catch-up replays the entries in the order of the schedule.  While
    the cursor is below the length of the log, the loop applies the entry
    at the cursor, the cursor one further, and goes on (the code moves the
    cursor when it reads the entry; moving it after the entry is applied
    comes to the same); otherwise it returns.  The whole loop is the
    replay of the pending entries from first to last, so of two kinds K1
    and K2 pending in this order K1 is applied first, on a world K2 has
    not touched, and its calls come before those of K2.  Applying an entry
    leaves the log as it is, and its effect is the same whatever the log
    holds. *)
Theorem catchup_in_schedule_order (w : world) :
  (dactions_done (env w) < length (dactions (you w)) ->
   catchup_dactions w
   = result_bind
       (_apply_daction (dactions (you w) !!! dactions_done (env w))
                       (advance_cursor w))
       catchup_dactions
   /\ catchup_dactions w
      = result_bind
          (result_map advance_cursor
             (_apply_daction (dactions (you w) !!! dactions_done (env w)) w))
          catchup_dactions
   /\ forall w1,
        _apply_daction (dactions (you w) !!! dactions_done (env w))
                       (advance_cursor w) = Ok w1 ->
        dactions_done (env w1) = S (dactions_done (env w)))
  /\ (~ dactions_done (env w) < length (dactions (you w)) ->
      catchup_dactions w = Ok w)
  /\ catchup_dactions w <> OutOfFuel
  /\ catchup_dactions w = replay (pending w) w
  /\ (forall pre K1 mid K2 post w',
        pending w = pre ++ K1 :: mid ++ K2 :: post ->
        catchup_dactions w = Ok w' ->
        exists w1 w2 w3 w4 ev1 between ev2 after,
          replay pre w = Ok w1
          /\ _apply_daction K1 (advance_cursor w1) = Ok w2
          /\ calls w2 = calls w1 ++ ev1
          /\ replay mid w2 = Ok w3
          /\ calls w3 = calls w2 ++ between
          /\ _apply_daction K2 (advance_cursor w3) = Ok w4
          /\ calls w4 = calls w3 ++ ev2
          /\ replay post w4 = Ok w'
          /\ calls w' = calls w1 ++ ev1 ++ between ++ ev2 ++ after)
  /\ (forall act w1,
        _apply_daction act w = Ok w1 -> dactions (you w1) = dactions (you w))
  /\ (forall act l n,
        _apply_daction act (with_log l n w)
        = result_map (with_log l n) (_apply_daction act w)).
Proof.
  split; [|split; [|split; [apply catchup_returns|]]].
  3: split; [|split; [|split]].
  - intros Hlt.
    assert (Hloop : catchup_dactions w
                    = result_bind
                        (_apply_daction
                           (dactions (you w) !!! dactions_done (env w))
                           (advance_cursor w))
                        catchup_dactions).
    { rewrite catchup_replay, pending_cons by assumption. cbn [replay].
      destruct (_apply_daction _ (advance_cursor w)) as [w1| |] eqn:E;
        try reflexivity.
      cbn [result_bind]. rewrite catchup_replay.
      apply apply_daction_kept in E as [Hk _].
      now rewrite (pending_kept _ _ Hk). }
    split; [exact Hloop|]. split.
    + now rewrite <- apply_then_advance.
    + intros w1 E. now apply apply_daction_kept in E as [(_ & _ & ->) _].
  - intros Hge. apply catchup_nothing_pending. now apply pending_nil.
  - apply catchup_replay.
  - intros pre K1 mid K2 post w' Hp. rewrite catchup_replay, Hp.
    rewrite replay_app.
    destruct (replay pre w) as [w1| |]; try discriminate.
    cbn [result_bind replay].
    destruct (_apply_daction K1 (advance_cursor w1)) as [w2| |] eqn:E1;
      try discriminate.
    rewrite replay_app.
    destruct (replay mid w2) as [w3| |] eqn:Em; try discriminate.
    cbn [result_bind replay].
    destruct (_apply_daction K2 (advance_cursor w3)) as [w4| |] eqn:E2;
      try discriminate.
    intros Hpost.
    destruct (apply_daction_kept _ _ _ E1) as [_ [ev1 H1]].
    destruct (replay_kept _ _ _ Em) as (_ & _ & _ & between & Hb).
    destruct (apply_daction_kept _ _ _ E2) as [_ [ev2 H2]].
    destruct (replay_kept _ _ _ Hpost) as (_ & _ & _ & after & Ha).
    cbn in H1, H2.
    exists w1, w2, w3, w4, ev1, between, ev2, after.
    repeat split; try assumption.
    rewrite Ha, H2, Hb, H1. now rewrite <- !app_assoc.
  - intros act w1 H. apply apply_daction_kept in H as [(-> & _) _].
    reflexivity.
  - intros act l n. apply apply_daction_with_log.
Qed.

(** C7. An entry whose kind lies outside [0, NUM_DACTIONS) fails the
    ASSERT of [_apply_daction], and the catch-up that meets it stops there
    instead of going on; a value that passes the range check without being
    the label of an action (the count NUM_DA_COUNTERS, or a value that no
    case names) leaves the world as it is. *)
Theorem apply_daction_range_assert (act : daction_type) (w : world) :
  (~ (0 <= act < NUM_DACTIONS)%Z ->
   _apply_daction act w = AssertFail
   /\ forall w0 rest,
        pending w0 = act :: rest -> catchup_dactions w0 = AssertFail)
  /\ ((0 <= act < NUM_DACTIONS)%Z ->
      act = NUM_DA_COUNTERS \/ daction_of_int act = None ->
      _apply_daction act w = Ok w).
Proof.
  split.
  - intros Hr.
    assert (Hc : negb ((0 <=? act)%Z && (act <? NUM_DACTIONS)%Z) = true).
    { destruct (Z.leb_spec 0 act), (Z.ltb_spec act NUM_DACTIONS);
        cbn; try reflexivity; lia. }
    split.
    + unfold _apply_daction. now rewrite Hc.
    + intros w0 rest Hp. rewrite catchup_replay, Hp. cbn [replay].
      unfold _apply_daction. now rewrite Hc.
  - intros Hr Hs.
    assert (Hc : negb ((0 <=? act)%Z && (act <? NUM_DACTIONS)%Z) = false).
    { destruct (Z.leb_spec 0 act), (Z.ltb_spec act NUM_DACTIONS);
        cbn; try reflexivity; lia. }
    unfold _apply_daction. rewrite Hc.
    destruct Hs as [-> | ->]; reflexivity.
Qed.

(** C3. [add_daction] returns (or stops at a failed ASSERT of the
    catch-up), and when it returns: the kind has been appended to the log;
    if the kind is counted, its slot is zero on every level the travel
    cache tracks, the active one or not, and the other slots are as they
    were; if it is not counted the travel cache is untouched; and the
    result is that of the catch-up run on the world so prepared, so that
    nothing is pending and the cursor is at the end of the log. *)
Theorem add_daction_schedules (k : daction_type) (w : world) :
  (0 <= k)%Z ->
  cursor_in_log w ->
  counters_sized (travel_cache w) ->
  add_daction k w <> OutOfFuel
  /\ forall w',
       add_daction k w = Ok w' ->
       dactions (you w') = dactions (you w) ++ [k]
       /\ ((k < NUM_DA_COUNTERS)%Z ->
           travel_cache w' = clear_da_counter k (travel_cache w)
           /\ Forall (fun il => da_counters (snd il) !! Z.to_nat k = Some 0)
                     (travel_cache w'))
       /\ (~ (k < NUM_DA_COUNTERS)%Z -> travel_cache w' = travel_cache w)
       /\ (exists w1,
             dactions (you w1) = dactions (you w) ++ [k]
             /\ env w1 = env w /\ calls w1 = calls w
             /\ travel_cache w1 = travel_cache w'
             /\ catchup_dactions w1 = Ok w')
       /\ pending w' = []
       /\ dactions_done (env w') = length (dactions (you w')).
Proof.
  intros Hk Hc Hs. unfold add_daction.
  set (w0 := with_dactions (dactions (you w) ++ [k]) w).
  set (w1 := if (k <? NUM_DA_COUNTERS)%Z
             then with_travel_cache (clear_da_counter k (travel_cache w0)) w0
             else w0).
  split; [apply catchup_returns|].
  intros w' H.
  assert (Hy1 : dactions (you w1) = dactions (you w) ++ [k])
    by (subst w1 w0; destruct (k <? _)%Z; reflexivity).
  assert (He1 : env w1 = env w)
    by (subst w1 w0; destruct (k <? _)%Z; reflexivity).
  assert (Hc1 : calls w1 = calls w)
    by (subst w1 w0; destruct (k <? _)%Z; reflexivity).
  assert (Ht1 : travel_cache w1
                = if (k <? NUM_DA_COUNTERS)%Z
                  then clear_da_counter k (travel_cache w)
                  else travel_cache w)
    by (subst w1 w0; destruct (k <? _)%Z; reflexivity).
  destruct (catchup_kept _ _ H) as (Hy & Ht & Hd & Hp & _).
  split; [now rewrite Hy|].
  split; [|split; [|split; [|split]]].
  - intros Hlt. apply Z.ltb_lt in Hlt. rewrite Hlt in Ht1.
    rewrite Ht, Ht1. split; [reflexivity|].
    unfold clear_da_counter. apply Forall_map.
    eapply Forall_impl; [exact Hs|]. cbn. intros il Hlen.
    apply list_lookup_insert_eq. rewrite Hlen.
    apply Z.ltb_lt in Hlt. cbn [int_of_daction] in *. lia.
  - intros Hge. apply Z.ltb_nlt in Hge. rewrite Hge in Ht1. congruence.
  - exists w1. repeat split; try assumption. now symmetry.
  - assumption.
  - rewrite Hd, Hy. unfold pending. rewrite length_drop.
    rewrite He1, Hy1, length_app in *. unfold cursor_in_log in Hc.
    cbn [length]. lia.
Qed.

End Claims_replay.

(** The scenarios, under the rules of [Scenario.rules]. *)

Lemma catchup_idempotent_witness :
  let w := Scenario.a_world [int_of_daction DACT_ALLY_HOLY;
                             int_of_daction DACT_SHUFFLE_DECKS] 0
             Scenario.holy_mons (BRANCH_other 0) 1 in
  exists w',
    catchup_dactions (U := Scenario.rules) w = Ok w'
    /\ catchup_dactions (U := Scenario.rules) w' = Ok w'
    /\ dactions_done (env w') = 2.
Proof.
  intros w. eexists. split; [vm_compute; reflexivity|].
  match goal with
  | |- catchup_dactions ?w' = _ /\ _ =>
      destruct (catchup_idempotent (U := Scenario.rules) w w' eq_refl)
        as (H1 & _ & H2)
  end.
  split; [exact H1|].
  apply H2. unfold cursor_in_log. cbn. lia.
Defined.

Lemma catchup_in_schedule_order_witness :
  let w := Scenario.a_world [int_of_daction DACT_ALLY_HOLY;
                             int_of_daction DACT_ALLY_TROG] 0
             Scenario.trog_mons (BRANCH_other 0) 1 in
  dactions_done (env w) < length (dactions (you w))
  /\ catchup_dactions (U := Scenario.rules) w
     = result_bind
         (_apply_daction (U := Scenario.rules) DACT_ALLY_HOLY
            (advance_cursor w))
         (catchup_dactions (U := Scenario.rules)).
Proof.
  intros w.
  assert (H : dactions_done (env w) < length (dactions (you w)))
    by (cbn; lia).
  split; [exact H|].
  exact (proj1 (proj1 (catchup_in_schedule_order (U := Scenario.rules) w) H)).
Defined.

Lemma apply_daction_range_assert_witness :
  _apply_daction (U := Scenario.rules) NUM_DACTIONS Scenario.holy_level
  = AssertFail
  /\ _apply_daction (U := Scenario.rules) NUM_DA_COUNTERS Scenario.holy_level
     = Ok Scenario.holy_level.
Proof.
  split.
  - apply (apply_daction_range_assert (U := Scenario.rules)
             NUM_DACTIONS Scenario.holy_level).
    cbn. lia.
  - apply (apply_daction_range_assert (U := Scenario.rules)
             NUM_DA_COUNTERS Scenario.holy_level).
    + cbn. lia.
    + left. reflexivity.
Defined.

Lemma add_daction_schedules_witness :
  exists w',
    add_daction (U := Scenario.rules) DACT_ALLY_HOLY Scenario.holy_level
    = Ok w'
    /\ dactions (you w') = [int_of_daction DACT_ALLY_HOLY]
    /\ Forall (fun il => da_counters (snd il) !! 0 = Some 0)
              (travel_cache w').
Proof.
  eexists. split; [vm_compute; reflexivity|].
  match goal with
  | |- dactions (you ?w') = _ /\ _ =>
      destruct (add_daction_schedules (U := Scenario.rules)
                  DACT_ALLY_HOLY Scenario.holy_level) as [_ H];
        [ cbn; lia
        | unfold cursor_in_log; cbn; lia
        | repeat constructor
        | destruct (H w' eq_refl) as (H1 & H2 & _) ]
  end.
  split; [exact H1|].
  apply H2. cbn. lia.
Defined.

(** ** The counters and the matcher *)

Section Counters.

Context {U : mon_util}.

(** A loop over distinct slots, each step of which rewrites its own slot
    only, rewrites every slot it meets exactly once. *)
Lemma fold_counters_lookup
    (step : LevelInfo -> nat -> LevelInfo) (h : nat -> nat -> nat) :
  (forall l act k,
     da_counters (step l act) !! k
     = if decide (k = act) then h act <$> (da_counters l !! k)
       else da_counters l !! k) ->
  forall idx, NoDup idx -> forall l k,
    da_counters (fold_left step idx l) !! k
    = if decide (k ∈ idx) then h k <$> (da_counters l !! k)
      else da_counters l !! k.
Proof.
  intros Hstep idx. induction idx as [|i rest IH]; intros Hnd l k;
    cbn [fold_left].
  - rewrite decide_False; [reflexivity|]. intros H; inversion H.
  - apply NoDup_cons in Hnd as [Hi Hrest].
    rewrite IH, Hstep by assumption.
    destruct (decide (k = i)) as [->|Hne].
    + rewrite (decide_False (P := i ∈ rest)) by assumption.
      now rewrite decide_True by apply list_elem_of_here.
    + destruct (decide (k ∈ rest)) as [Hk|Hk].
      * now rewrite decide_True by now apply list_elem_of_further.
      * rewrite decide_False; [reflexivity|]. rewrite elem_of_cons. tauto.
Qed.

Lemma counter_indices_NoDup : NoDup counter_indices.
Proof. apply NoDup_seq. Qed.

Lemma elem_of_counter_indices k :
  k ∈ counter_indices <-> k < Z.to_nat NUM_DA_COUNTERS.
Proof. unfold counter_indices. rewrite elem_of_seq. lia. Qed.

Lemma zero_counters_lookup lev k :
  k < Z.to_nat NUM_DA_COUNTERS ->
  da_counters (zero_counters lev) !! k
  = (fun _ => 0) <$> (da_counters lev !! k).
Proof.
  intros Hk. unfold zero_counters.
  rewrite (fold_counters_lookup _ (fun _ _ => 0)).
  - now rewrite decide_True by now apply elem_of_counter_indices.
  - intros l act j. unfold da_counter_assign; cbn.
    rewrite list_insert_alter, list_lookup_alter.
    destruct (decide (j = act)) as [->|Hne].
    + now rewrite decide_True.
    + now rewrite decide_False by congruence.
  - apply counter_indices_NoDup.
Qed.

Lemma count_monster_lookup mi lev k :
  k < Z.to_nat NUM_DA_COUNTERS ->
  da_counters (count_monster mi lev) !! k
  = (if _mons_matches_counter (Some mi) (Z.of_nat k) then S else id)
      <$> (da_counters lev !! k).
Proof.
  intros Hk. unfold count_monster.
  rewrite (fold_counters_lookup _
             (fun act => if _mons_matches_counter (Some mi) (Z.of_nat act)
                         then S else id)).
  - now rewrite decide_True by now apply elem_of_counter_indices.
  - intros l act j.
    destruct (_mons_matches_counter (Some mi) (Z.of_nat act)).
    + unfold da_counter_incr; cbn. rewrite list_lookup_alter.
      destruct (decide (j = act)) as [->|Hne].
      * now rewrite decide_True.
      * now rewrite decide_False by congruence.
    + case_decide; [|reflexivity]. now destruct (da_counters l !! j).
  - apply counter_indices_NoDup.
Qed.

Lemma fold_counters_length
    (step : LevelInfo -> nat -> LevelInfo) :
  (forall l act, length (da_counters (step l act)) = length (da_counters l)) ->
  forall idx l,
    length (da_counters (fold_left step idx l)) = length (da_counters l).
Proof.
  intros Hstep idx. induction idx as [|i rest IH]; intros l; cbn [fold_left];
    [reflexivity|].
  now rewrite IH, Hstep.
Qed.

Lemma zero_counters_length lev :
  length (da_counters (zero_counters lev)) = length (da_counters lev).
Proof.
  apply fold_counters_length. intros l act. cbn. apply length_insert.
Qed.

Lemma count_monster_length mi lev :
  length (da_counters (count_monster mi lev)) = length (da_counters lev).
Proof.
  apply fold_counters_length. intros l act.
  destruct (_mons_matches_counter _ _); [|reflexivity].
  cbn. apply length_alter.
Qed.

Lemma count_monsters_length ms : forall lev,
  length
    (da_counters
       (fold_left (fun l mi => if alive mi then count_monster mi l else l)
                  ms lev))
  = length (da_counters lev).
Proof.
  induction ms as [|mi ms IH]; intros lev; cbn [fold_left]; [reflexivity|].
  rewrite IH. destruct (alive mi); [apply count_monster_length|reflexivity].
Qed.

Lemma matching_alive_cons mi ms k :
  matching_alive (mi :: ms) k
  = (if alive mi && _mons_matches_counter (Some mi) k then 1 else 0)
    + matching_alive ms k.
Proof.
  unfold matching_alive. rewrite filter_cons.
  destruct (alive mi) eqn:A, (_mons_matches_counter (Some mi) k) eqn:M;
    cbn [andb];
    (rewrite decide_True by tauto) || (rewrite decide_False by intuition congruence);
    reflexivity.
Qed.

Lemma count_monsters_lookup ms : forall lev k,
  k < Z.to_nat NUM_DA_COUNTERS ->
  da_counters
    (fold_left (fun l mi => if alive mi then count_monster mi l else l) ms lev)
    !! k
  = (fun c => c + matching_alive ms (Z.of_nat k)) <$> (da_counters lev !! k).
Proof.
  induction ms as [|mi ms IH]; intros lev k Hk; cbn [fold_left].
  - destruct (da_counters lev !! k); cbn; [f_equal; cbn; lia | reflexivity].
  - rewrite IH by assumption. rewrite matching_alive_cons.
    destruct (alive mi); cbn [andb].
    + rewrite count_monster_lookup by assumption.
      destruct (_mons_matches_counter (Some mi) (Z.of_nat k)),
               (da_counters lev !! k); cbn; try reflexivity; f_equal; lia.
    + destruct (da_counters lev !! k); cbn; [f_equal; lia | reflexivity].
Qed.

(** C2. After [update_da_counters], run for the level that is active,
    the slot of every counted kind k, 0 <= k < NUM_DA_COUNTERS, holds the
    number of living monsters of the level that [_mons_matches_counter]
    accepts for k: the slots are set to zero, then each is incremented
    once for each living monster that matches. *)
Theorem update_da_counters_counts
    (w : world) (lev : LevelInfo) (k : daction_type) :
  length (da_counters lev) = Z.to_nat NUM_DA_COUNTERS ->
  (0 <= k < NUM_DA_COUNTERS)%Z ->
  da_counters (update_da_counters w lev) !! Z.to_nat k
  = Some (matching_alive (menv w) k)
  /\ length (da_counters (update_da_counters w lev))
     = Z.to_nat NUM_DA_COUNTERS.
Proof.
  intros Hlen Hk. unfold update_da_counters.
  assert (Hn : Z.to_nat k < Z.to_nat NUM_DA_COUNTERS) by lia.
  split.
  - rewrite count_monsters_lookup, zero_counters_lookup by assumption.
    destruct (lookup_lt_is_Some_2 (da_counters lev) (Z.to_nat k)) as [c ->];
      [lia|].
    cbn. now rewrite Z2Nat.id by lia.
  - rewrite count_monsters_length, zero_counters_length. exact Hlen.
Qed.

(** C6. [_mons_matches_counter] is a function of its two arguments alone,
    defined on every monster pointer and every integer kind.  It answers
    false for a null pointer and for a dead monster, and false for every
    kind it has no case for: the unused counter indices from
    NUM_DA_COUNTERS up to the first uncounted kind, the uncounted kinds
    other than the three it handles, and any other integer. *)
Theorem mons_matches_counter_total :
  (forall act, _mons_matches_counter None act = false)
  /\ (forall mon act,
        alive mon = false -> _mons_matches_counter (Some mon) act = false)
  /\ (forall mon act,
        (forall e, e ∈ matcher_kinds -> act <> int_of_daction e) ->
        _mons_matches_counter mon act = false)
  /\ (forall mon act,
        (NUM_DA_COUNTERS <= act < DACT_OLD_ENSLAVED_SOULS_POOF)%Z ->
        _mons_matches_counter mon act = false)
  /\ (forall mon (e : daction_enumerator),
        e ∈ [DACT_OLD_ENSLAVED_SOULS_POOF; DACT_HOLY_NEW_ATTEMPT;
             DACT_SLIME_NEW_ATTEMPT; DACT_SHUFFLE_DECKS; DACT_REAUTOMAP;
             DACT_REMOVE_JIYVA_ALTARS; DACT_ROT_CORPSES; DACT_TOMB_CTELE] ->
        _mons_matches_counter mon e = false).
Proof.
  assert (Hnone : forall mon act,
             (forall e, e ∈ matcher_kinds -> act <> int_of_daction e) ->
             _mons_matches_counter mon act = false).
  { intros [mon|] act H; [|reflexivity]. unfold _mons_matches_counter.
    destruct (negb (alive mon)); [reflexivity|].
    destruct (daction_of_int act) as [e|] eqn:E; [|reflexivity].
    apply daction_of_int_Some in E.
    destruct e; try reflexivity; exfalso; (eapply H; [|exact E]);
      apply list_elem_of_In; cbn; tauto. }
  split; [reflexivity|].
  split.
  { intros mon act A. unfold _mons_matches_counter. now rewrite A. }
  split; [exact Hnone|].
  split.
  - intros mon act Hr. apply Hnone. intros e He ->.
    apply list_elem_of_In in He. cbn in He, Hr.
    repeat (destruct He as [<-|He]; [cbn in Hr; lia|]). contradiction.
  - intros mon e He. apply Hnone. intros e' He' Heq.
    apply list_elem_of_In in He, He'. cbn in He, He'.
    repeat (destruct He as [<-|He];
            [repeat (destruct He' as [<-|He']; [discriminate|]);
             contradiction|]).
    contradiction.
Qed.

End Counters.

Lemma update_da_counters_counts_witness :
  da_counters
    (update_da_counters (U := Scenario.rules) Scenario.holy_level
       (mk_LevelInfo [9; 9; 9; 9; 9; 9; 9; 9]))
    !! Z.to_nat DACT_ALLY_UNHOLY_EVIL
  = Some 1.
Proof.
  apply (update_da_counters_counts (U := Scenario.rules) Scenario.holy_level
           (mk_LevelInfo [9; 9; 9; 9; 9; 9; 9; 9]) DACT_ALLY_UNHOLY_EVIL).
  - reflexivity.
  - cbn. lia.
Defined.

Lemma mons_matches_counter_total_witness :
  _mons_matches_counter (U := Scenario.rules)
    (Some (Scenario.a_monster Scenario.MONS_ANGEL ATT_FRIENDLY
             GOD_SHINING_ONE []))
    DACT_HOLY_NEW_ATTEMPT
  = false
  /\ _mons_matches_counter (U := Scenario.rules)
       (Some (Scenario.a_monster Scenario.MONS_ANGEL ATT_FRIENDLY
                GOD_SHINING_ONE []))
       12%Z
     = false.
Proof.
  destruct (mons_matches_counter_total (U := Scenario.rules))
    as (_ & _ & _ & Hgap & Hunc).
  split.
  - apply Hunc. apply list_elem_of_In. cbn. tauto.
  - apply Hgap. cbn. lia.
Defined.

(** ** The effect of single kinds *)

Section Kinds.

Context {U : mon_util}.

Lemma matches_alive mon act :
  _mons_matches_counter (Some mon) act = true -> alive mon = true.
Proof.
  unfold _mons_matches_counter. destruct (alive mon); [reflexivity|].
  discriminate.
Qed.

Lemma has_ench_del_ench e mon : has_ench (del_ench e mon) e = false.
Proof.
  unfold has_ench, del_ench; cbn. apply bool_decide_eq_false.
  rewrite list_elem_of_filter. tauto.
Qed.

Lemma is_trog (e : daction_enumerator) :
  (int_of_daction e =? DACT_ALLY_TROG)%Z = true <-> e = DACT_ALLY_TROG.
Proof. destruct e; cbn; split; congruence. Qed.

Lemma go_hostile_mon (e : daction_enumerator) i mon :
  _mons_matches_counter (Some mon) e = true ->
  attitude (fst (go_hostile e i mon)) = ATT_HOSTILE
  /\ has_ench (fst (go_hostile e i mon)) ENCH_CHARM = false.
Proof.
  intros M. unfold go_hostile. rewrite M.
  pose proof (has_ench_del_ench ENCH_CHARM (set_attitude ATT_HOSTILE mon)).
  destruct (_ || _); cbn [fst]; split; try reflexivity; assumption.
Qed.

Lemma in_go_hostile_calls (e : daction_enumerator) i mon ev :
  In ev (snd (go_hostile e i mon))
  <-> _mons_matches_counter (Some mon) e = true
      /\ (ev = behaviour_event i ME_ALERT
          \/ ev = mons_att_changed i
          \/ (e = DACT_ALLY_TROG
              /\ ev = simple_monster_message i " turns against you!")).
Proof.
  unfold go_hostile.
  destruct (_mons_matches_counter (Some mon) e); cbn [snd].
  - pose proof (is_trog e) as Ht.
    destruct (int_of_daction e =? DACT_ALLY_TROG)%Z; cbn [In app].
    + intuition (try congruence).
    + intuition (try congruence).
  - cbn. intuition congruence.
Qed.

Lemma apply_hostility_kind (e : daction_enumerator) w :
  e ∈ hostility_kinds ->
  _apply_daction e w = Ok (monster_iterator (go_hostile e) w).
Proof.
  intros He. apply list_elem_of_In in He. cbn in He.
  repeat (destruct He as [<-|He]; [reflexivity|]). contradiction.
Qed.

(** C5, as the code has it.  Applying one of the nine "go hostile" kinds
    turns every living monster that matches the kind hostile, strips its
    charm, alerts it and reports the change of allegiance; a monster that
    does not match is left as it is and nothing is called for it.  The
    message " turns against you!" is sent for each converted monster by
    the Trog kind and by no other: the eight counted kinds send no message
    at all. *)
Theorem go_hostile_effect (e : daction_enumerator) (w : world) :
  e ∈ hostility_kinds ->
  exists w' new,
    _apply_daction e w = Ok w'
    /\ calls w' = calls w ++ new
    /\ forall i mon,
         menv w !! i = Some mon ->
         (_mons_matches_counter (Some mon) e = true ->
          exists mon',
            menv w' !! i = Some mon'
            /\ attitude mon' = ATT_HOSTILE
            /\ has_ench mon' ENCH_CHARM = false
            /\ In (behaviour_event i ME_ALERT) new
            /\ In (mons_att_changed i) new
            /\ forall msg,
                 In (simple_monster_message i msg) new
                 <-> e = DACT_ALLY_TROG /\ msg = " turns against you!")
         /\ (_mons_matches_counter (Some mon) e = false ->
             menv w' !! i = Some mon
             /\ ~ In (behaviour_event i ME_ALERT) new
             /\ ~ In (mons_att_changed i) new
             /\ forall msg, ~ In (simple_monster_message i msg) new).
Proof.
  intros He.
  exists (monster_iterator (go_hostile e) w),
    (concat (map (visit_calls (go_hostile e) (menv w))
                 (seq 0 (length (menv w))))).
  split; [now apply apply_hostility_kind|].
  split; [apply monster_iterator_calls|].
  intros i mon Hi.
  assert (Hin : forall ev,
             (exists j, ev = behaviour_event j ME_ALERT /\ j = i
                        \/ ev = mons_att_changed j /\ j = i
                        \/ exists msg, ev = simple_monster_message j msg
                                       /\ j = i) ->
             In ev (concat (map (visit_calls (go_hostile e) (menv w))
                                (seq 0 (length (menv w)))))
             <-> In ev (snd (go_hostile e i mon))
                 /\ alive mon = true).
  { intros ev Hev. rewrite in_monster_iterator_calls. split.
    - intros (j & mon' & Hj & A & Hin).
      assert (j = i) as ->.
      { apply in_go_hostile_calls in Hin as [_ Hin].
        destruct Hev as (k & [[-> <-] | [[-> <-] | (msg & -> & <-)]]);
          destruct Hin as [Hin | [Hin | [_ Hin]]]; congruence. }
      rewrite Hi in Hj. injection Hj as <-. tauto.
    - intros [Hin A]. eauto. }
  rewrite monster_iterator_lookup, Hi. cbn [fmap option_fmap option_map].
  unfold visited. split.
  - intros M. pose proof (matches_alive _ _ M) as A. rewrite A.
    destruct (go_hostile_mon e i mon M) as [Ha Hc].
    eexists. split; [reflexivity|].
    split; [assumption|]. split; [assumption|].
    split; [|split].
    + apply Hin; [eauto|]. rewrite in_go_hostile_calls. tauto.
    + apply Hin; [eauto 6|]. rewrite in_go_hostile_calls. tauto.
    + intros msg. rewrite Hin by eauto 8. rewrite in_go_hostile_calls.
      split.
      * intros [[_ [H | [H | [Ht H]]]] _]; try discriminate.
        injection H as ->. tauto.
      * intros [-> ->]. tauto.
  - intros M.
    assert (Hfst : (if alive mon then fst (go_hostile e i mon) else mon)
                   = mon).
    { unfold go_hostile. rewrite M. now destruct (alive mon). }
    rewrite Hfst. split; [reflexivity|].
    split; [|split; [|intros msg]];
      (rewrite Hin by eauto 8); rewrite in_go_hostile_calls;
      intros [[M' _] _]; congruence.
Qed.


(** C9. Applying DACT_TOMB_CTELE does something only when the player is
    in the Tomb: there it clears the "no teleport control" restriction of
    the level by one call of [unset_level_flags], whose second argument
    the depth decides (false on depth 3, true elsewhere); outside the
    Tomb the world is left as it is. *)
Theorem tomb_ctele_gated (w : world) :
  exists w',
    _apply_daction DACT_TOMB_CTELE w = Ok w'
    /\ (where_are_you (you w) <> BRANCH_TOMB -> w' = w)
    /\ (where_are_you (you w) = BRANCH_TOMB ->
        w' = unset_level_flags LFLAG_NO_TELE_CONTROL
               (negb (depth (you w) =? 3)%Z) w
        /\ calls w'
           = calls w
             ++ [unset_level_flags_call LFLAG_NO_TELE_CONTROL
                   (negb (depth (you w) =? 3)%Z)]
        /\ (forall i,
              (0 <= i)%Z ->
              Z.testbit (level_flags (env w')) i
              = Z.testbit (level_flags (env w)) i
                && negb (Z.testbit LFLAG_NO_TELE_CONTROL i))
        /\ menv w' = menv w /\ mitm w' = mitm w
        /\ grid (env w') = grid (env w)
        /\ outside_kept w w').
Proof.
  unfold _apply_daction; cbn. unfold player_in_branch.
  destruct (decide (where_are_you (you w) = BRANCH_TOMB)) as [E|E].
  - rewrite bool_decide_eq_true_2 by assumption.
    eexists. split; [reflexivity|]. split; [congruence|].
    intros _. repeat split.
    intros i Hi. cbn. rewrite Z.land_spec, Z.lnot_spec by assumption.
    reflexivity.
  - rewrite bool_decide_eq_false_2 by assumption.
    exists w. split; [reflexivity|]. split; [reflexivity|]. congruence.
Qed.

(** C10. DACT_HOLY_PETS_GO_NEUTRAL matches a monster exactly when it is
    alive, friendly, free of a charm, holy and a gift of the Shining One.
    A monster under a charm is therefore never matched, friendly holy gift
    or not, and applying the kind leaves it as it is; a monster that is
    matched becomes good-neutral and starts to wander. *)
Theorem holy_pets_matcher (mon : monster) :
  _mons_matches_counter (Some mon) DACT_HOLY_PETS_GO_NEUTRAL
  = alive mon && (friendly mon && negb (has_ench mon ENCH_CHARM)
                  && is_holy mon && mons_is_god_gift mon GOD_SHINING_ONE)
  /\ (has_ench mon ENCH_CHARM = true ->
      _mons_matches_counter (Some mon) DACT_HOLY_PETS_GO_NEUTRAL = false
      /\ forall w i,
           menv w !! i = Some mon ->
           exists w',
             _apply_daction DACT_HOLY_PETS_GO_NEUTRAL w = Ok w'
             /\ menv w' !! i = Some mon)
  /\ (_mons_matches_counter (Some mon) DACT_HOLY_PETS_GO_NEUTRAL = true ->
      friendly mon = true
      /\ has_ench mon ENCH_CHARM = false
      /\ is_holy mon = true
      /\ mons_is_god_gift mon GOD_SHINING_ONE = true
      /\ forall w i,
           menv w !! i = Some mon ->
           exists w' mon',
             _apply_daction DACT_HOLY_PETS_GO_NEUTRAL w = Ok w'
             /\ menv w' !! i = Some mon'
             /\ attitude mon' = ATT_GOOD_NEUTRAL
             /\ behaviour mon' = BEH_WANDER).
Proof.
  assert (Heq : _mons_matches_counter (Some mon) DACT_HOLY_PETS_GO_NEUTRAL
                = alive mon
                  && (friendly mon && negb (has_ench mon ENCH_CHARM)
                      && is_holy mon
                      && mons_is_god_gift mon GOD_SHINING_ONE)).
  { unfold _mons_matches_counter; cbn. now destruct (alive mon). }
  split; [exact Heq|]. split.
  - intros Hc.
    assert (M : _mons_matches_counter (Some mon) DACT_HOLY_PETS_GO_NEUTRAL
                = false).
    { rewrite Heq, Hc. cbn. now rewrite andb_false_r, andb_false_r. }
    split; [exact M|].
    intros w i Hi. eexists. split; [reflexivity|].
    rewrite monster_iterator_lookup, Hi. cbn [fmap option_fmap option_map].
    unfold visited, go_neutral. rewrite M. now destruct (alive mon).
  - intros M. pose proof M as M'. rewrite Heq in M'.
    apply andb_true_iff in M' as [A M'].
    apply andb_true_iff in M' as [M' Hg].
    apply andb_true_iff in M' as [M' Hh].
    apply andb_true_iff in M' as [Hf Hc].
    apply negb_true_iff in Hc.
    repeat (split; [assumption|]).
    intros w i Hi. eexists. eexists. split; [reflexivity|].
    rewrite monster_iterator_lookup, Hi. cbn [fmap option_fmap option_map].
    unfold visited, go_neutral. rewrite M, A.
    split; [reflexivity|]. cbn. split; reflexivity.
Qed.

End Kinds.

(** ** The scenarios of the specification *)

(** The Trog kind on a level with a friendly and a hostile gift of Trog:
    the friendly one is converted and the message is sent for it. *)
Lemma go_hostile_effect_witness :
  exists w' new,
    _apply_daction (U := Scenario.rules) DACT_ALLY_TROG Scenario.trog_level
    = Ok w'
    /\ calls w' = calls Scenario.trog_level ++ new
    /\ In (simple_monster_message 0 " turns against you!") new
    /\ ~ In (simple_monster_message 1 " turns against you!") new.
Proof.
  destruct (go_hostile_effect (U := Scenario.rules) DACT_ALLY_TROG
              Scenario.trog_level) as (w' & new & H1 & H2 & H3).
  { apply list_elem_of_In. cbn. tauto. }
  exists w', new. split; [exact H1|]. split; [exact H2|]. split.
  - destruct (H3 0 _ eq_refl) as [Hm _].
    destruct (Hm eq_refl) as (mon' & _ & _ & _ & _ & _ & Hmsg).
    apply Hmsg. split; reflexivity.
  - destruct (H3 1 _ eq_refl) as [_ Hn].
    destruct (Hn eq_refl) as (_ & _ & _ & Hmsg). apply Hmsg.
Defined.

(** The hostility cascade of the specification: scheduling the holy kind
    turns the friendly angel hostile and leaves the other two monsters as
    they are, but no message at all is sent, for the angel or for anyone
    else. *)
Lemma holy_cascade_sends_no_message :
  exists w',
    add_daction (U := Scenario.rules) DACT_ALLY_HOLY Scenario.holy_level
    = Ok w'
    /\ attitude <$> (menv w' !! 0) = Some ATT_HOSTILE
    /\ menv w' !! 1 = Scenario.holy_mons !! 1
    /\ menv w' !! 2 = Scenario.holy_mons !! 2
    /\ calls w' = [behaviour_event 0 ME_ALERT; mons_att_changed 0]
    /\ forall i msg, ~ In (simple_monster_message i msg) (calls w').
Proof.
  eexists. split; [vm_compute; reflexivity|].
  repeat (split; [reflexivity|]).
  intros i msg [H | [H | []]]; discriminate.
Qed.



(** The Tomb kind on the third level of the Tomb. *)
Lemma tomb_ctele_gated_witness :
  exists w',
    _apply_daction (U := Scenario.rules) DACT_TOMB_CTELE Scenario.tomb_level
    = Ok w'
    /\ calls w' = [unset_level_flags_call 1 false]
    /\ Z.testbit (level_flags (env w')) 0 = false.
Proof.
  destruct (tomb_ctele_gated (U := Scenario.rules) Scenario.tomb_level)
    as (w' & H & _ & Htomb).
  destruct (Htomb eq_refl) as (_ & Hc & Hbit & _).
  exists w'. split; [exact H|]. split; [exact Hc|].
  rewrite Hbit by lia. reflexivity.
Defined.

(** Two holy pets of the Shining One, one of them held by a charm: both
    are friendly gifts, only the free one is matched and goes neutral. *)
Lemma holy_pets_matcher_witness :
  friendly (mon_util := Scenario.rules)
    (Scenario.a_monster Scenario.MONS_ANGEL ATT_FRIENDLY GOD_SHINING_ONE
       [ENCH_CHARM]) = true
  /\ mons_is_god_gift (mon_util := Scenario.rules)
       (Scenario.a_monster Scenario.MONS_ANGEL ATT_FRIENDLY GOD_SHINING_ONE
          [ENCH_CHARM]) GOD_SHINING_ONE = true
  /\ _mons_matches_counter (U := Scenario.rules)
       (Some (Scenario.a_monster Scenario.MONS_ANGEL ATT_FRIENDLY
                GOD_SHINING_ONE [ENCH_CHARM]))
       DACT_HOLY_PETS_GO_NEUTRAL = false
  /\ exists w',
       _apply_daction (U := Scenario.rules) DACT_HOLY_PETS_GO_NEUTRAL
         Scenario.pet_level = Ok w'
       /\ menv w' !! 1 = Scenario.pet_mons !! 1.
Proof.
  split; [reflexivity|]. split; [reflexivity|].
  destruct (holy_pets_matcher (U := Scenario.rules)
              (Scenario.a_monster Scenario.MONS_ANGEL ATT_FRIENDLY
                 GOD_SHINING_ONE [ENCH_CHARM])) as (_ & Hcharm & _).
  destruct (Hcharm eq_refl) as [Hm Happly].
  split; [exact Hm|]. exact (Happly Scenario.pet_level 1 eq_refl).
Defined.

(** * Further properties of the queue *)

(** ** When the replay fails *)

Section Range.

Context {U : mon_util}.

Lemma in_range_cond act :
  negb ((0 <=? act)%Z && (act <? NUM_DACTIONS)%Z) = false <-> in_range act.
Proof.
  unfold in_range.
  destruct (Z.leb_spec 0 act), (Z.ltb_spec act NUM_DACTIONS);
    cbn [negb andb]; split; intros; try lia; try reflexivity;
    discriminate.
Qed.

Lemma apply_in_range act w :
  in_range act -> exists w', _apply_daction act w = Ok w'.
Proof.
  intros Hr. apply in_range_cond in Hr. unfold _apply_daction. rewrite Hr.
  destruct (daction_of_int act) as [e|]; [destruct e|];
    try (eexists; reflexivity).
  destruct (player_in_branch BRANCH_TOMB w); eexists; reflexivity.
Qed.

Lemma apply_out_of_range act w :
  ~ in_range act -> _apply_daction act w = AssertFail.
Proof.
  intros Hr. unfold _apply_daction.
  destruct (negb _) eqn:E; [reflexivity|].
  apply in_range_cond in E. contradiction.
Qed.

Lemma in_range_dec act : {in_range act} + {~ in_range act}.
Proof.
  unfold in_range.
  destruct (Z_le_dec 0 act), (Z_lt_dec act NUM_DACTIONS);
    (left; lia) || (right; lia).
Qed.

Lemma replay_ok_iff acts : forall w,
  (exists w', replay acts w = Ok w') <-> Forall in_range acts.
Proof.
  induction acts as [|act acts IH]; intros w; cbn [replay].
  - split; [constructor | eauto].
  - rewrite Forall_cons. destruct (in_range_dec act) as [Hr|Hr].
    + destruct (apply_in_range act (advance_cursor w) Hr) as [w1 ->].
      rewrite IH. tauto.
    + rewrite apply_out_of_range by assumption.
      split; [intros [w' H]; discriminate | tauto].
Qed.

Lemma replay_fails acts w :
  ~ Forall in_range acts -> replay acts w = AssertFail.
Proof.
  intros H. destruct (replay acts w) as [w'| |] eqn:E; [|reflexivity|].
  - exfalso. apply H. apply (replay_ok_iff acts w). eauto.
  - now apply replay_not_out_of_fuel in E.
Qed.

(** The replay goes through exactly when every pending entry is a kind
    of the declared range; with one that is not, it ends in the failed
    ASSERT, however many good entries come first. *)
Theorem catchup_ok_iff (w : world) :
  ((exists w', catchup_dactions w = Ok w') <-> Forall in_range (pending w))
  /\ (~ Forall in_range (pending w) -> catchup_dactions w = AssertFail).
Proof.
  rewrite catchup_replay. split.
  - apply replay_ok_iff.
  - apply replay_fails.
Qed.

(** On a level that has seen the whole log, [add_daction] applies the new
    entry, and only it, once: the result is that of [_apply_daction] on
    the world with the entry appended, the counter cleared if the kind is
    counted, and the cursor at the end of the log. *)
Theorem add_daction_applies_once (k : daction_type) (w : world) :
  pending w = [] ->
  cursor_in_log w ->
  add_daction k w
  = _apply_daction k
      (advance_cursor
         (if (k <? NUM_DA_COUNTERS)%Z
          then with_travel_cache (clear_da_counter k (travel_cache w))
                 (with_dactions (dactions (you w) ++ [k]) w)
          else with_dactions (dactions (you w) ++ [k]) w))
  /\ (in_range k ->
      exists w',
        add_daction k w = Ok w'
        /\ dactions_done (env w') = S (dactions_done (env w))).
Proof.
  intros Hp Hc. unfold cursor_in_log in Hc.
  assert (Hd : dactions_done (env w) = length (dactions (you w))).
  { unfold pending in Hp. apply (f_equal length) in Hp.
    rewrite length_drop in Hp. cbn in Hp. lia. }
  unfold add_daction.
  set (w1 := if (k <? NUM_DA_COUNTERS)%Z
             then with_travel_cache _ _ else _).
  assert (Hp1 : pending w1 = [k]).
  { subst w1. unfold pending.
    destruct (k <? NUM_DA_COUNTERS)%Z; cbn; rewrite Hd;
      now rewrite drop_app_length. }
  assert (Heq : catchup_dactions w1 = _apply_daction k (advance_cursor w1)).
  { rewrite catchup_replay, Hp1. cbn [replay].
    now destruct (_apply_daction k (advance_cursor w1)). }
  split; [exact Heq|].
  intros Hr. destruct (apply_in_range k (advance_cursor w1) Hr) as [w' E].
  exists w'. split; [now rewrite Heq|].
  apply apply_daction_kept in E as [(_ & _ & ->) _].
  subst w1. now destruct (k <? NUM_DA_COUNTERS)%Z.
Qed.

End Range.

(** ** Replaying at once and replaying in two goes *)

Section Incremental.

Context {U : mon_util}.

Lemma with_dactions_as_with_log l w :
  with_dactions l w = with_log l (dactions_done (env w)) w.
Proof. destruct w as [[] [] ? ?]; reflexivity. Qed.

Lemma apply_daction_with_dactions act l w :
  _apply_daction act (with_dactions l w)
  = result_map (with_dactions l) (_apply_daction act w).
Proof.
  rewrite with_dactions_as_with_log, apply_daction_with_log.
  destruct (_apply_daction act w) as [w1| |] eqn:E; cbn [result_map];
    try reflexivity.
  apply apply_daction_kept in E as [(_ & _ & Hd) _].
  now rewrite with_dactions_as_with_log, Hd.
Qed.

Lemma replay_with_dactions l acts : forall w,
  replay acts (with_dactions l w)
  = result_map (with_dactions l) (replay acts w).
Proof.
  induction acts as [|act acts IH]; intros w; cbn [replay]; [reflexivity|].
  change (advance_cursor (with_dactions l w))
    with (with_dactions l (advance_cursor w)).
  rewrite apply_daction_with_dactions.
  destruct (_apply_daction act (advance_cursor w)); cbn [result_map];
    [apply IH | reflexivity | reflexivity].
Qed.

(** A level that is active while the first part of a log is scheduled and
    catches up again once the rest is ends up exactly like a level that
    meets the whole log at once: the entries already applied are not
    applied again, and none is skipped. *)
Theorem catchup_in_two_goes (l2 : list daction_type) (w : world) :
  cursor_in_log w ->
  catchup_dactions (with_dactions (dactions (you w) ++ l2) w)
  = result_bind (catchup_dactions w)
      (fun w1 =>
         catchup_dactions (with_dactions (dactions (you w1) ++ l2) w1)).
Proof.
  intros Hc. unfold cursor_in_log in Hc.
  set (l := dactions (you w) ++ l2).
  assert (Hp : pending (with_dactions l w) = pending w ++ l2).
  { unfold pending, l; cbn. now rewrite drop_app_le. }
  rewrite (catchup_replay (with_dactions l w)), Hp, replay_app.
  rewrite replay_with_dactions, (catchup_replay w).
  destruct (replay (pending w) w) as [w1| |] eqn:E; cbn; try reflexivity.
  apply replay_kept in E as (Hy & _ & Hd & _).
  rewrite Hy. fold l. rewrite catchup_replay. f_equal.
  unfold pending; cbn. rewrite Hd. unfold pending. rewrite length_drop.
  replace (dactions_done (env w)
           + (length (dactions (you w)) - dactions_done (env w)))
    with (length (dactions (you w))) by lia.
  unfold l. now rewrite drop_app_length.
Qed.

(** The replay moves the cursor forward only and keeps it within the log;
    it writes neither the log, nor the position of the player, nor any
    counter of the travel cache, and the calls made before it stay at the
    head of the calls made. *)
Theorem catchup_keeps (w w' : world) :
  catchup_dactions w = Ok w' ->
  you w' = you w
  /\ travel_cache w' = travel_cache w
  /\ dactions_done (env w) <= dactions_done (env w')
  /\ (cursor_in_log w -> cursor_in_log w')
  /\ exists evs, calls w' = calls w ++ evs.
Proof.
  intros H. apply catchup_kept in H as (Hy & Ht & Hd & _ & Hc).
  repeat split; try assumption; [lia|].
  unfold cursor_in_log. rewrite Hy, Hd. unfold pending.
  rewrite length_drop. lia.
Qed.

End Incremental.

Lemma add_daction_applies_once_witness :
  exists w',
    add_daction (U := Scenario.rules) DACT_ALLY_TROG Scenario.trog_level
    = Ok w'
    /\ dactions_done (env w') = 1.
Proof.
  destruct (add_daction_applies_once (U := Scenario.rules) DACT_ALLY_TROG
              Scenario.trog_level) as [_ H].
  - reflexivity.
  - unfold cursor_in_log. cbn. lia.
  - apply H. unfold in_range. cbn. lia.
Defined.

Lemma catchup_in_two_goes_witness :
  let w := Scenario.a_world [int_of_daction DACT_ALLY_HOLY] 0
             Scenario.holy_mons (BRANCH_other 0) 1 in
  catchup_dactions (U := Scenario.rules)
    (with_dactions (dactions (you w) ++ [int_of_daction DACT_ROT_CORPSES]) w)
  = result_bind (catchup_dactions (U := Scenario.rules) w)
      (fun w1 =>
         catchup_dactions (U := Scenario.rules)
           (with_dactions
              (dactions (you w1) ++ [int_of_daction DACT_ROT_CORPSES]) w1)).
Proof.
  intros w.
  apply (catchup_in_two_goes (U := Scenario.rules)
           [int_of_daction DACT_ROT_CORPSES] w).
  unfold cursor_in_log. cbn. lia.
Defined.

Lemma catchup_keeps_witness :
  let w := Scenario.a_world [int_of_daction DACT_ALLY_HOLY;
                             int_of_daction DACT_ALLY_TROG] 1
             Scenario.trog_mons (BRANCH_other 0) 1 in
  exists w',
    catchup_dactions (U := Scenario.rules) w = Ok w'
    /\ travel_cache w' = Scenario.two_levels
    /\ 1 <= dactions_done (env w').
Proof.
  intros w. eexists. split; [vm_compute; reflexivity|].
  match goal with
  | |- travel_cache ?w' = _ /\ _ =>
      destruct (catchup_keeps (U := Scenario.rules) w w' eq_refl)
        as (_ & Ht & Hd & _)
  end.
  split; [exact Ht | exact Hd].
Defined.

Lemma catchup_ok_iff_witness :
  catchup_dactions (U := Scenario.rules)
    (Scenario.a_world [int_of_daction DACT_ALLY_HOLY; 27%Z] 0
       Scenario.holy_mons (BRANCH_other 0) 1)
  = AssertFail.
Proof.
  apply (catchup_ok_iff (U := Scenario.rules)).
  intros H. cbn in H. apply Forall_cons in H as [_ H].
  apply Forall_cons in H as [H _]. unfold in_range in H. cbn in H. lia.
Defined.

(** ** What a kind leaves alone *)

Section Frames.

Context {U : mon_util}.

Lemma visit_slot_length body i w :
  length (menv (visit_slot body i w)) = length (menv w).
Proof.
  unfold visit_slot. destruct (menv w !! i) as [mon|]; [|reflexivity].
  destruct (alive mon); [|reflexivity].
  destruct (body i mon). unfold menv; cbn. apply length_insert.
Qed.

Lemma monster_iterator_length body w :
  length (menv (monster_iterator body w)) = length (menv w).
Proof.
  unfold monster_iterator. generalize (seq 0 (length (menv w))).
  intros slots. revert w.
  induction slots as [|i rest IH]; intros w; cbn; [reflexivity|].
  now rewrite IH, visit_slot_length.
Qed.

Lemma rot_slot_frame w i :
  menv (rot_slot w i) = menv w
  /\ grid (env (rot_slot w i)) = grid (env w)
  /\ level_flags (env (rot_slot w i)) = level_flags (env w).
Proof.
  unfold rot_slot. destruct (mitm w !! i) as [it|]; [|tauto].
  destruct (_ && _); cbn; tauto.
Qed.

Lemma rot_fold_frame idx : forall w,
  menv (fold_left rot_slot idx w) = menv w
  /\ grid (env (fold_left rot_slot idx w)) = grid (env w)
  /\ level_flags (env (fold_left rot_slot idx w)) = level_flags (env w)
  /\ length (mitm (fold_left rot_slot idx w)) = length (mitm w).
Proof.
  induction idx as [|i rest IH]; intros w; cbn [fold_left]; [tauto|].
  destruct (IH (rot_slot w i)) as (-> & -> & -> & ->).
  destruct (rot_slot_frame w i) as (-> & -> & ->).
  destruct (rot_slot_kept w i) as (_ & _ & ->). tauto.
Qed.

Lemma altar_fold_grid_unchanged cells : forall w,
  (forall c, c ∈ cells -> grd w c <> DNGN_ALTAR_JIYVA) ->
  fold_left altar_to_floor cells w = w.
Proof.
  induction cells as [|ri rest IH]; intros w H; cbn [fold_left];
    [reflexivity|].
  assert (E : altar_to_floor w ri = w).
  { unfold altar_to_floor. rewrite decide_False; [reflexivity|].
    apply H, list_elem_of_here. }
  rewrite E. apply IH. intros c Hc. now apply H, list_elem_of_further.
Qed.

(** No kind touches a dead monster: whatever entry is applied, a slot
    whose monster is dead holds the same monster afterwards. *)
Theorem apply_daction_skips_dead
    (act : daction_type) (w w' : world) (i : nat) (mon : monster) :
  _apply_daction act w = Ok w' ->
  menv w !! i = Some mon ->
  alive mon = false ->
  menv w' !! i = Some mon.
Proof.
  intros H Hi A.
  assert (Hit : forall b, menv (monster_iterator b w) !! i = Some mon).
  { intros b. rewrite monster_iterator_lookup, Hi. cbn.
    unfold visited. now rewrite A. }
  revert H. unfold _apply_daction. destruct (negb _); [discriminate|].
  destruct (daction_of_int act) as [e|]; [destruct e|];
    try (intros [= <-]; first [apply Hit | exact Hi]).
  - intros [= <-]. unfold remove_jiyva_altars.
    destruct (altar_fold_kept (rectangle_iterator 1) w)
      as (_ & _ & -> & _). exact Hi.
  - intros [= <-]. unfold rot_corpses.
    destruct (rot_fold_frame (seq 0 (length (mitm w))) w) as (-> & _).
    exact Hi.
  - destruct (player_in_branch BRANCH_TOMB w); intros [= <-]; exact Hi.
Qed.

End Frames.

Lemma apply_daction_skips_dead_witness :
  let w := Scenario.a_world [] 0
             [dismissed (Scenario.a_monster Scenario.MONS_ANGEL ATT_FRIENDLY
                           GOD_SHINING_ONE [])]
             (BRANCH_other 0) 1 in
  exists w',
    _apply_daction (U := Scenario.rules) DACT_ALLY_HOLY w = Ok w'
    /\ menv w' !! 0 = menv w !! 0.
Proof.
  intros w. eexists. split; [vm_compute; reflexivity|].
  match goal with
  | |- menv ?w' !! 0 = _ =>
      exact (apply_daction_skips_dead (U := Scenario.rules) DACT_ALLY_HOLY
               w w' 0 _ eq_refl eq_refl eq_refl)
  end.
Defined.

(** ** The kinds that loop over the monsters *)

Section Loops.

Context {U : mon_util}.

Variable body : mon_body.

(** The calls of a loop whose body calls for its own monster only. *)
Lemma in_calls_of_slot w i ev :
  (forall j mon e, In e (snd (body j mon)) -> event_index e = Some j) ->
  event_index ev = Some i ->
  In ev (concat (map (visit_calls body (menv w)) (seq 0 (length (menv w)))))
  <-> exists mon,
        menv w !! i = Some mon /\ alive mon = true
        /\ In ev (snd (body i mon)).
Proof.
  intros Hown Hev. rewrite in_monster_iterator_calls. split.
  - intros (j & mon & Hj & A & Hin).
    pose proof (Hown _ _ _ Hin) as Hj'. rewrite Hev in Hj'.
    injection Hj' as ->. eauto.
  - intros (mon & Hi & A & Hin). eauto.
Qed.

(** The calls made for one monster stand together, in the order of the
    body, among the calls of the loop. *)
Lemma calls_of_slot_together w i mon :
  menv w !! i = Some mon -> alive mon = true ->
  exists before after,
    concat (map (visit_calls body (menv w)) (seq 0 (length (menv w))))
    = before ++ snd (body i mon) ++ after.
Proof.
  intros Hi A. pose proof (lookup_lt_Some _ _ _ Hi) as Hlt.
  assert (Hv : visit_calls body (menv w) i = snd (body i mon))
    by (unfold visit_calls; now rewrite Hi, A).
  assert (Hs : forall n, i < n -> seq 0 n = seq 0 i ++ i :: seq (S i) (n - S i)).
  { intros n Hn. replace n with (i + S (n - S i)) at 1 by lia.
    now rewrite seq_app. }
  exists (concat (map (visit_calls body (menv w)) (seq 0 i))),
    (concat (map (visit_calls body (menv w))
                 (seq (S i) (length (menv w) - S i)))).
  rewrite <- Hv, (Hs _ Hlt), map_app, concat_app. reflexivity.
Qed.

Lemma silent_loop w :
  (forall i mon, snd (body i mon) = []) ->
  concat (map (visit_calls body (menv w)) (seq 0 (length (menv w)))) = [].
Proof.
  intros Hs. generalize (seq 0 (length (menv w))). intros slots.
  induction slots as [|i rest IH]; cbn; [reflexivity|].
  rewrite IH, app_nil_r. unfold visit_calls.
  destruct (menv w !! i) as [mon|]; [|reflexivity].
  destruct (alive mon); [apply Hs | reflexivity].
Qed.

Lemma visit_slot_id i w :
  (forall mon, menv w !! i = Some mon -> alive mon = true ->
               body i mon = (mon, [])) ->
  visit_slot body i w = w.
Proof.
  intros H. unfold visit_slot.
  destruct (menv w !! i) as [mon|] eqn:Hi; [|reflexivity].
  destruct (alive mon) eqn:A; [|reflexivity].
  rewrite (H mon eq_refl A). unfold menv in *.
  rewrite list_insert_id by assumption.
  destruct w as [? [] ? ?]; unfold call, with_env, set_mons; cbn.
  now rewrite app_nil_r.
Qed.

(** A loop whose body changes no living monster and calls nothing leaves
    the world as it is. *)
Lemma monster_iterator_id w :
  (forall i mon, menv w !! i = Some mon -> alive mon = true ->
                 body i mon = (mon, [])) ->
  monster_iterator body w = w.
Proof.
  intros H. unfold monster_iterator.
  generalize (seq 0 (length (menv w))). intros slots.
  induction slots as [|i rest IH]; cbn; [reflexivity|].
  rewrite visit_slot_id by (intros mon; apply H). exact IH.
Qed.

End Loops.

Section Monster_kinds.

Context {U : mon_util}.

Lemma flags_clear_bits bits mon n :
  (0 <= n)%Z ->
  Z.testbit (flags (flags_clear bits mon)) n
  = Z.testbit (flags mon) n && negb (Z.testbit bits n).
Proof. intros Hn. cbn. now rewrite Z.land_spec, Z.lnot_spec. Qed.

(** DACT_OLD_ENSLAVED_SOULS_POOF: for every living enslaved soul the
    message " is freed." is sent and then the soul is dismissed, the two
    calls side by side; every other monster is left as it is and nothing
    is called for it. *)
Theorem souls_poof_effect (w : world) :
  exists w' new,
    _apply_daction DACT_OLD_ENSLAVED_SOULS_POOF w = Ok w'
    /\ calls w' = calls w ++ new
    /\ forall i mon,
         menv w !! i = Some mon ->
         (alive mon = true -> mons_enslaved_soul mon = true ->
          menv w' !! i = Some (dismissed mon)
          /\ exists before after,
               new = before
                     ++ [simple_monster_message i " is freed.";
                         monster_die i KILL_DISMISSED]
                     ++ after)
         /\ (alive mon = false \/ mons_enslaved_soul mon = false ->
             menv w' !! i = Some mon
             /\ forall ev, event_index ev = Some i -> ~ In ev new).
Proof.
  exists (monster_iterator souls_poof w),
    (concat (map (visit_calls souls_poof (menv w))
                 (seq 0 (length (menv w))))).
  split; [reflexivity|]. split; [apply monster_iterator_calls|].
  intros i mon Hi. rewrite monster_iterator_lookup, Hi.
  cbn [fmap option_fmap option_map]. unfold visited. split.
  - intros A S. rewrite A. split.
    + unfold souls_poof. now rewrite S.
    + destruct (calls_of_slot_together souls_poof w i mon Hi A)
        as (before & after & ->).
      exists before, after. unfold souls_poof. now rewrite S.
  - intros H. split.
    + destruct H as [A | S]; [now rewrite A|].
      unfold souls_poof. rewrite S. now destruct (alive mon).
    + intros ev Hev. rewrite in_calls_of_slot; [|clear|exact Hev].
      * intros (mon' & Hi' & A & Hin). rewrite Hi in Hi'.
        injection Hi' as <-. unfold souls_poof in Hin.
        destruct H as [A' | S]; [congruence|].
        rewrite S in Hin. contradiction.
      * intros j m e. unfold souls_poof.
        destruct (mons_enslaved_soul m); cbn; [|contradiction].
        intros [<- | [<- | []]]; reflexivity.
Qed.

(** DACT_HOLY_NEW_ATTEMPT and DACT_SLIME_NEW_ATTEMPT: the bits of
    MF_ATT_CHANGE_ATTEMPT are cleared in the flags of every living holy
    monster, respectively slime, and nothing else happens: the other bits
    and the other members stay, no other monster changes, no call is
    made. *)
Theorem new_attempt_effect (w : world) :
  (exists w',
     _apply_daction DACT_HOLY_NEW_ATTEMPT w = Ok w'
     /\ calls w' = calls w
     /\ forall i mon,
          menv w !! i = Some mon ->
          menv w' !! i
          = Some (if alive mon && is_holy mon
                  then flags_clear MF_ATT_CHANGE_ATTEMPT mon else mon))
  /\ (exists w',
        _apply_daction DACT_SLIME_NEW_ATTEMPT w = Ok w'
        /\ calls w' = calls w
        /\ forall i mon,
             menv w !! i = Some mon ->
             menv w' !! i
             = Some (if alive mon && mons_is_slime mon
                     then flags_clear MF_ATT_CHANGE_ATTEMPT mon else mon))
  /\ forall mon,
       set_flags (flags mon) (flags_clear MF_ATT_CHANGE_ATTEMPT mon) = mon
       /\ forall n,
            (0 <= n)%Z ->
            Z.testbit (flags (flags_clear MF_ATT_CHANGE_ATTEMPT mon)) n
            = Z.testbit (flags mon) n
              && negb (Z.testbit MF_ATT_CHANGE_ATTEMPT n).
Proof.
  split; [|split].
  - exists (monster_iterator holy_new_attempt w).
    split; [reflexivity|]. split.
    + rewrite monster_iterator_calls, silent_loop; [apply app_nil_r|].
      intros i mon. unfold holy_new_attempt. now destruct (is_holy mon).
    + intros i mon Hi. rewrite monster_iterator_lookup, Hi.
      cbn [fmap option_fmap option_map]. unfold visited, holy_new_attempt.
      now destruct (alive mon), (is_holy mon).
  - exists (monster_iterator slime_new_attempt w).
    split; [reflexivity|]. split.
    + rewrite monster_iterator_calls, silent_loop; [apply app_nil_r|].
      intros i mon. unfold slime_new_attempt.
      now destruct (mons_is_slime mon).
    + intros i mon Hi. rewrite monster_iterator_lookup, Hi.
      cbn [fmap option_fmap option_map]. unfold visited, slime_new_attempt.
      now destruct (alive mon), (mons_is_slime mon).
  - intros mon. split; [now destruct mon|].
    intros n Hn. now apply flags_clear_bits.
Qed.

(** DACT_ALLY_PLANT and DACT_ALLY_SLIME allow a later reconversion: the
    last thing their loop does to a monster it converts is to clear the
    bits of MF_ATT_CHANGE_ATTEMPT, so that none of them is set in the
    flags of a converted monster once the entry has been applied. *)
Theorem go_hostile_allows_reconversion
    (e : daction_enumerator) (w : world) :
  e = DACT_ALLY_PLANT \/ e = DACT_ALLY_SLIME ->
  exists w',
    _apply_daction e w = Ok w'
    /\ forall i mon,
         menv w !! i = Some mon ->
         _mons_matches_counter (Some mon) e = true ->
         exists mon',
           menv w' !! i = Some mon'
           /\ Z.land (flags mon') MF_ATT_CHANGE_ATTEMPT = 0%Z.
Proof.
  intros He. exists (monster_iterator (go_hostile e) w).
  split; [destruct He as [-> | ->]; reflexivity|].
  intros i mon Hi M. pose proof (matches_alive _ _ M) as A.
  rewrite monster_iterator_lookup, Hi.
  cbn [fmap option_fmap option_map]. unfold visited. rewrite A.
  eexists. split; [reflexivity|].
  unfold go_hostile. rewrite M.
  destruct He as [-> | ->]; cbn;
    now rewrite <- Z.land_assoc, (Z.land_comm (Z.lnot _)),
      Z.land_lnot_diag, Z.land_0_r.
Qed.

End Monster_kinds.

Lemma go_hostile_allows_reconversion_witness :
  exists w' mon',
    _apply_daction (U := Scenario.rules) DACT_ALLY_PLANT Scenario.plant_level
    = Ok w'
    /\ menv w' !! 0 = Some mon'
    /\ Z.land (flags mon') 2048 = 0%Z.
Proof.
  destruct (go_hostile_allows_reconversion (U := Scenario.rules)
              DACT_ALLY_PLANT Scenario.plant_level) as (w' & H & Hm).
  { left. reflexivity. }
  destruct (Hm 0 _ eq_refl eq_refl) as (mon' & H0 & Hf).
  exists w', mon'. split; [exact H|]. split; [exact H0 | exact Hf].
Defined.

Lemma souls_poof_effect_witness :
  exists w',
    _apply_daction (U := Scenario.rules) DACT_OLD_ENSLAVED_SOULS_POOF
      Scenario.soul_level = Ok w'
    /\ alive <$> menv w' !! 0 = Some false
    /\ menv w' !! 1 = Scenario.soul_mons !! 1.
Proof.
  destruct (souls_poof_effect (U := Scenario.rules) Scenario.soul_level)
    as (w' & new & H & _ & Hm).
  exists w'. split; [exact H|]. split.
  - destruct (Hm 0 _ eq_refl) as [Hs _].
    destruct (Hs eq_refl eq_refl) as [-> _]. reflexivity.
  - destruct (Hm 1 _ eq_refl) as [_ Hn].
    destruct (Hn (or_intror eq_refl)) as [-> _]. reflexivity.
Defined.

Lemma new_attempt_effect_witness :
  exists w',
    _apply_daction (U := Scenario.rules) DACT_HOLY_NEW_ATTEMPT
      Scenario.holy_level = Ok w'
    /\ calls w' = []
    /\ menv w' !! 2 = Scenario.holy_mons !! 2.
Proof.
  destruct (new_attempt_effect (U := Scenario.rules) Scenario.holy_level)
    as [(w' & H & Hc & Hm) _].
  exists w'. split; [exact H|]. split; [exact Hc|].
  rewrite (Hm 2 _ eq_refl). reflexivity.
Defined.

(** ** The two "go neutral" kinds *)

Section Neutral.

Context {U : mon_util}.

Lemma go_neutral_pikel i mon :
  go_neutral DACT_PIKEL_SLAVES i mon
  = if _mons_matches_counter (Some mon) DACT_PIKEL_SLAVES
    then (set_behaviour BEH_WANDER
            (set_mname "freed slave"
               (flags_set (Z.lor (Z.lor MF_NAME_REPLACE MF_NAME_DESCRIPTOR)
                                 MF_NAME_NOCORPSE)
                  (set_attitude ATT_GOOD_NEUTRAL mon))),
          [mons_att_changed i])
    else (mon, []).
Proof.
  unfold go_neutral.
  now destruct (_mons_matches_counter (Some mon) DACT_PIKEL_SLAVES).
Qed.

Lemma go_neutral_pets i mon :
  go_neutral DACT_HOLY_PETS_GO_NEUTRAL i mon
  = if _mons_matches_counter (Some mon) DACT_HOLY_PETS_GO_NEUTRAL
    then (set_behaviour BEH_WANDER (set_attitude ATT_GOOD_NEUTRAL mon),
          [mons_att_changed i;
           simple_monster_message i " becomes indifferent."])
    else (mon, []).
Proof.
  unfold go_neutral.
  now destruct (_mons_matches_counter (Some mon) DACT_HOLY_PETS_GO_NEUTRAL).
Qed.

Lemma freed_slave_no_match mon :
  mname mon = "freed slave"%string ->
  _mons_matches_counter (Some mon) DACT_PIKEL_SLAVES = false.
Proof.
  intros Hn. unfold _mons_matches_counter; cbn.
  destruct (alive mon); [|reflexivity]. cbn. rewrite Hn.
  now rewrite andb_false_r.
Qed.

Lemma go_neutral_own_calls (act : daction_type) j mon e :
  In e (snd (go_neutral act j mon)) -> event_index e = Some j.
Proof.
  unfold go_neutral.
  destruct (_mons_matches_counter (Some mon) act); [|contradiction].
  destruct (act =? DACT_PIKEL_SLAVES)%Z; cbn.
  - intros [<- | []]; reflexivity.
  - intros [<- | [<- | []]]; reflexivity.
Qed.

(** DACT_PIKEL_SLAVES: a living slave of the band of Pikel that has not
    been freed yet becomes good-neutral, gets the three name flags and the
    name "freed slave", and starts to wander; the change of allegiance is
    reported and no message is sent.  The freed slave does not match the
    kind any more, so applying the kind again changes nothing and calls
    nothing. *)
Theorem pikel_slaves_effect (w : world) :
  exists w' new,
    _apply_daction DACT_PIKEL_SLAVES w = Ok w'
    /\ calls w' = calls w ++ new
    /\ (forall i msg, ~ In (simple_monster_message i msg) new)
    /\ (forall i mon,
          menv w !! i = Some mon ->
          (_mons_matches_counter (Some mon) DACT_PIKEL_SLAVES = true ->
           exists mon',
             menv w' !! i = Some mon'
             /\ attitude mon' = ATT_GOOD_NEUTRAL
             /\ behaviour mon' = BEH_WANDER
             /\ mname mon' = "freed slave"%string
             /\ flags mon'
                = Z.lor (flags mon)
                    (Z.lor (Z.lor MF_NAME_REPLACE MF_NAME_DESCRIPTOR)
                           MF_NAME_NOCORPSE)
             /\ _mons_matches_counter (Some mon') DACT_PIKEL_SLAVES = false
             /\ In (mons_att_changed i) new)
          /\ (_mons_matches_counter (Some mon) DACT_PIKEL_SLAVES = false ->
              menv w' !! i = Some mon
              /\ forall ev, event_index ev = Some i -> ~ In ev new))
    /\ _apply_daction DACT_PIKEL_SLAVES w' = Ok w'.
Proof.
  set (body := go_neutral DACT_PIKEL_SLAVES).
  exists (monster_iterator body w),
    (concat (map (visit_calls body (menv w)) (seq 0 (length (menv w))))).
  split; [reflexivity|]. split; [apply monster_iterator_calls|].
  assert (Hlook : forall i mon,
             menv w !! i = Some mon ->
             menv (monster_iterator body w) !! i
             = Some (if _mons_matches_counter (Some mon) DACT_PIKEL_SLAVES
                     then fst (body i mon) else mon)).
  { intros i mon Hi. rewrite monster_iterator_lookup, Hi.
    cbn [fmap option_fmap option_map]. unfold visited, body.
    rewrite go_neutral_pikel.
    destruct (_mons_matches_counter (Some mon) DACT_PIKEL_SLAVES) eqn:M.
    - now rewrite (matches_alive _ _ M).
    - now destruct (alive mon). }
  split; [|split].
  - intros i msg Hin. apply in_monster_iterator_calls in Hin
      as (j & mon & _ & _ & Hin).
    unfold body in Hin. rewrite go_neutral_pikel in Hin.
    destruct (_mons_matches_counter _ _); cbn in Hin;
      [destruct Hin as [H | []]; discriminate | contradiction].
  - intros i mon Hi. rewrite (Hlook i mon Hi). split.
    + intros M. rewrite M. unfold body. rewrite go_neutral_pikel, M.
      eexists. split; [reflexivity|]. cbn [fst].
      repeat split.
      * now apply freed_slave_no_match.
      * apply (in_calls_of_slot body w i);
          [apply go_neutral_own_calls | reflexivity |].
        exists mon. split; [exact Hi|].
        split; [exact (matches_alive _ _ M)|].
        unfold body. rewrite go_neutral_pikel, M. now left.
    + intros M. rewrite M. split; [reflexivity|].
      intros ev Hev. rewrite (in_calls_of_slot body w i);
        [|apply go_neutral_own_calls | exact Hev].
      intros (mon' & Hi' & _ & Hin). rewrite Hi in Hi'.
      injection Hi' as <-. unfold body in Hin.
      rewrite go_neutral_pikel, M in Hin. contradiction.
  - change (_apply_daction DACT_PIKEL_SLAVES (monster_iterator body w))
      with (Ok (monster_iterator body (monster_iterator body w))).
    f_equal. apply monster_iterator_id. intros i mon' Hi' _.
    unfold body at 1. rewrite go_neutral_pikel.
    assert (M' : _mons_matches_counter (Some mon') DACT_PIKEL_SLAVES
                 = false); [|now rewrite M'].
    destruct (menv w !! i) as [mon|] eqn:Hi.
    + rewrite (Hlook i mon Hi) in Hi'.
      destruct (_mons_matches_counter (Some mon) DACT_PIKEL_SLAVES) eqn:M;
        injection Hi' as <-; [|exact M].
      unfold body. rewrite go_neutral_pikel, M.
      now apply freed_slave_no_match.
    + rewrite monster_iterator_lookup, Hi in Hi'. discriminate.
Qed.

(** DACT_HOLY_PETS_GO_NEUTRAL: for every monster that matches, the change
    of allegiance is reported and then the message " becomes indifferent."
    is sent, side by side; the name, the flags, the god and the
    enchantments of the monster stay.  A monster that does not match is
    left as it is and nothing is called for it. *)
Theorem holy_pets_effect (w : world) :
  exists w' new,
    _apply_daction DACT_HOLY_PETS_GO_NEUTRAL w = Ok w'
    /\ calls w' = calls w ++ new
    /\ forall i mon,
         menv w !! i = Some mon ->
         (_mons_matches_counter (Some mon) DACT_HOLY_PETS_GO_NEUTRAL = true ->
          exists mon',
            menv w' !! i = Some mon'
            /\ mname mon' = mname mon /\ flags mon' = flags mon
            /\ god mon' = god mon
            /\ enchantments mon' = enchantments mon
            /\ exists before after,
                 new = before
                       ++ [mons_att_changed i;
                           simple_monster_message i " becomes indifferent."]
                       ++ after)
         /\ (_mons_matches_counter (Some mon) DACT_HOLY_PETS_GO_NEUTRAL
             = false ->
             menv w' !! i = Some mon
             /\ forall ev, event_index ev = Some i -> ~ In ev new).
Proof.
  set (body := go_neutral DACT_HOLY_PETS_GO_NEUTRAL).
  exists (monster_iterator body w),
    (concat (map (visit_calls body (menv w)) (seq 0 (length (menv w))))).
  split; [reflexivity|]. split; [apply monster_iterator_calls|].
  intros i mon Hi. rewrite monster_iterator_lookup, Hi.
  cbn [fmap option_fmap option_map]. unfold visited. split.
  - intros M. pose proof (matches_alive _ _ M) as A. rewrite A.
    destruct (calls_of_slot_together body w i mon Hi A)
      as (before & after & Hnew).
    unfold body in *. rewrite go_neutral_pets, M in *. cbn [fst snd] in *.
    eexists. split; [reflexivity|]. repeat split. eauto.
  - intros M. split.
    + unfold body. rewrite go_neutral_pets, M. now destruct (alive mon).
    + intros ev Hev. rewrite (in_calls_of_slot body w i);
        [|apply go_neutral_own_calls | exact Hev].
      intros (mon' & Hi' & _ & Hin). rewrite Hi in Hi'.
      injection Hi' as <-. unfold body in Hin.
      rewrite go_neutral_pets, M in Hin. contradiction.
Qed.

End Neutral.

Lemma pikel_slaves_effect_witness :
  exists w' mon',
    _apply_daction (U := Scenario.rules) DACT_PIKEL_SLAVES
      Scenario.pikel_level = Ok w'
    /\ menv w' !! 0 = Some mon'
    /\ mname mon' = "freed slave"%string
    /\ menv w' !! 1 = Scenario.pikel_mons !! 1
    /\ menv w' !! 2 = Scenario.pikel_mons !! 2.
Proof.
  destruct (pikel_slaves_effect (U := Scenario.rules) Scenario.pikel_level)
    as (w' & new & H & _ & _ & Hm & _).
  destruct (Hm 0 _ eq_refl) as [H0 _].
  destruct (H0 eq_refl) as (mon' & Hl & _ & _ & Hn & _).
  destruct (Hm 1 _ eq_refl) as [_ H1]. destruct (H1 eq_refl) as [Hl1 _].
  destruct (Hm 2 _ eq_refl) as [_ H2]. destruct (H2 eq_refl) as [Hl2 _].
  exists w', mon'. repeat split; assumption.
Defined.

Lemma holy_pets_effect_witness :
  exists w' new,
    _apply_daction (U := Scenario.rules) DACT_HOLY_PETS_GO_NEUTRAL
      Scenario.pet_level = Ok w'
    /\ calls w' = calls Scenario.pet_level ++ new
    /\ ~ In (simple_monster_message 1 " becomes indifferent.") new.
Proof.
  destruct (holy_pets_effect (U := Scenario.rules) Scenario.pet_level)
    as (w' & new & H & Hc & Hm).
  exists w', new. split; [exact H|]. split; [exact Hc|].
  destruct (Hm 1 _ eq_refl) as [_ Hn]. destruct (Hn eq_refl) as [_ Hno].
  apply Hno. reflexivity.
Defined.

(** ** The kinds that write the level *)

Section Level_kinds.

Context {U : mon_util}.

Lemma rot_slot_lookup w i j :
  mitm (rot_slot w i) !! j
  = if decide (j = i) then rotten <$> (mitm w !! i) else mitm w !! j.
Proof.
  unfold rot_slot, rotten.
  destruct (mitm w !! i) as [it|] eqn:Hi; cbn.
  - destruct (_ && _); cbn.
    + pose proof (lookup_lt_Some _ _ _ Hi) as Hlt. unfold mitm in *; cbn.
      case_decide as Hj.
      * subst j. now rewrite list_lookup_insert_eq.
      * now rewrite list_lookup_insert_ne by congruence.
    + case_decide; subst; congruence.
  - case_decide; subst; congruence.
Qed.

Lemma rot_fold_lookup idx : forall w j,
  NoDup idx ->
  mitm (fold_left rot_slot idx w) !! j
  = if decide (j ∈ idx) then rotten <$> (mitm w !! j) else mitm w !! j.
Proof.
  induction idx as [|i rest IH]; intros w j Hnd; cbn [fold_left].
  - rewrite decide_False; [reflexivity|]. intros H; inversion H.
  - apply NoDup_cons in Hnd as [Hi Hrest].
    rewrite IH, rot_slot_lookup by assumption.
    destruct (decide (j = i)) as [->|Hne].
    + rewrite (decide_False (P := i ∈ rest)) by assumption.
      now rewrite decide_True by apply list_elem_of_here.
    + destruct (decide (j ∈ rest)) as [Hj|Hj].
      * now rewrite decide_True by now apply list_elem_of_further.
      * rewrite decide_False; [reflexivity|]. rewrite elem_of_cons. tauto.
Qed.

Lemma rot_corpses_items w : mitm (rot_corpses w) = rotten <$> mitm w.
Proof.
  apply list_eq. intros j. unfold rot_corpses.
  rewrite rot_fold_lookup by apply NoDup_seq. rewrite list_lookup_fmap.
  case_decide as Hj; [reflexivity|].
  destruct (mitm w !! j) eqn:E; [|reflexivity].
  exfalso. apply Hj. apply elem_of_seq. apply lookup_lt_Some in E. lia.
Qed.

Lemma rotten_rotten it : rotten (rotten it) = rotten it.
Proof.
  unfold rotten.
  destruct (bool_decide (base_type it = OBJ_CORPSES)
            && (sub_type it =? CORPSE_BODY)%Z) eqn:E; cbn [base_type sub_type];
    now rewrite E.
Qed.

Lemma world_eq w1 w2 :
  you w1 = you w2 -> travel_cache w1 = travel_cache w2 ->
  calls w1 = calls w2 -> menv w1 = menv w2 ->
  grid (env w1) = grid (env w2) -> mitm w1 = mitm w2 ->
  level_flags (env w1) = level_flags (env w2) ->
  dactions_done (env w1) = dactions_done (env w2) ->
  w1 = w2.
Proof.
  destruct w1 as [? [] ? ?], w2 as [? [] ? ?]; unfold menv, mitm; cbn.
  intros. now subst.
Qed.

Lemma rot_corpses_frame w :
  outside_kept w (rot_corpses w)
  /\ calls (rot_corpses w) = calls w
  /\ menv (rot_corpses w) = menv w
  /\ grid (env (rot_corpses w)) = grid (env w)
  /\ level_flags (env (rot_corpses w)) = level_flags (env w).
Proof.
  unfold rot_corpses.
  destruct (rot_fold_kept (seq 0 (length (mitm w))) w) as [Hk Hc].
  destruct (rot_fold_frame (seq 0 (length (mitm w))) w)
    as (Hm & Hg & Hf & _).
  tauto.
Qed.

(** DACT_ROT_CORPSES sets [special] to 1 in every item slot that holds a
    corpse of sub-type CORPSE_BODY and writes nothing else: class and
    sub-type of the corpse stay, every other item, the monsters, the grid
    and the flags of the level stay, and no call is made.  Applying the
    kind again changes nothing. *)
Theorem rot_corpses_effect (w : world) :
  exists w',
    _apply_daction DACT_ROT_CORPSES w = Ok w'
    /\ mitm w' = rotten <$> mitm w
    /\ (forall it,
          base_type (rotten it) = base_type it
          /\ sub_type (rotten it) = sub_type it
          /\ (base_type it = OBJ_CORPSES -> sub_type it = CORPSE_BODY ->
              special (rotten it) = 1%Z)
          /\ (base_type it <> OBJ_CORPSES \/ sub_type it <> CORPSE_BODY ->
              rotten it = it))
    /\ menv w' = menv w /\ grid (env w') = grid (env w)
    /\ level_flags (env w') = level_flags (env w)
    /\ calls w' = calls w
    /\ outside_kept w w'
    /\ _apply_daction DACT_ROT_CORPSES w' = Ok w'.
Proof.
  exists (rot_corpses w). split; [reflexivity|].
  destruct (rot_corpses_frame w) as (Hk & Hc & Hm & Hg & Hf).
  split; [apply rot_corpses_items|]. split.
  - intros it. unfold rotten.
    destruct (bool_decide (base_type it = OBJ_CORPSES)) eqn:B;
      destruct (sub_type it =? CORPSE_BODY)%Z eqn:S; cbn;
      repeat split; try reflexivity; try (intros; reflexivity).
    + apply bool_decide_eq_true in B. apply Z.eqb_eq in S.
      intros [H | H]; contradiction.
    + intros _ H. apply Z.eqb_neq in S. contradiction.
    + intros H _. apply bool_decide_eq_false in B. contradiction.
    + intros H _. apply bool_decide_eq_false in B. contradiction.
  - repeat (split; [assumption|]).
    change (_apply_daction DACT_ROT_CORPSES (rot_corpses w))
      with (Ok (rot_corpses (rot_corpses w))).
    f_equal.
    destruct (rot_corpses_frame (rot_corpses w))
      as ((Hy & Ht & Hd) & Hc' & Hm' & Hg' & Hf').
    apply world_eq; try assumption.
    rewrite !rot_corpses_items, <- list_fmap_compose.
    apply list_fmap_ext. intros _ it _. apply rotten_rotten.
Qed.

(** After DACT_REMOVE_JIYVA_ALTARS no cell that the scan visits holds an
    altar of Jiyva, and applying the kind again leaves the world as it
    is. *)
Theorem remove_jiyva_altars_once (w : world) :
  exists w',
    _apply_daction DACT_REMOVE_JIYVA_ALTARS w = Ok w'
    /\ (forall c, c ∈ rectangle_iterator 1 -> grd w' c <> DNGN_ALTAR_JIYVA)
    /\ _apply_daction DACT_REMOVE_JIYVA_ALTARS w' = Ok w'.
Proof.
  exists (remove_jiyva_altars w). split; [reflexivity|].
  assert (Hnone : forall c,
             c ∈ rectangle_iterator 1 ->
             grd (remove_jiyva_altars w) c <> DNGN_ALTAR_JIYVA).
  { intros c Hc. unfold remove_jiyva_altars. rewrite altar_fold_grd.
    case_decide as H; [discriminate|]. tauto. }
  split; [exact Hnone|].
  change (_apply_daction DACT_REMOVE_JIYVA_ALTARS (remove_jiyva_altars w))
    with (Ok (remove_jiyva_altars (remove_jiyva_altars w))).
  f_equal. unfold remove_jiyva_altars at 1.
  now apply altar_fold_grid_unchanged.
Qed.

End Level_kinds.

Lemma rot_corpses_effect_witness :
  exists w',
    _apply_daction (U := Scenario.rules) DACT_ROT_CORPSES Scenario.item_level
    = Ok w'
    /\ mitm w'
       = [mk_item OBJ_CORPSES 0 1; mk_item OBJ_CORPSES 1 100;
          mk_item (OBJ_other 0) 0 7].
Proof.
  destruct (rot_corpses_effect (U := Scenario.rules) Scenario.item_level)
    as (w' & H & Hi & _).
  exists w'. split; [exact H|]. rewrite Hi. reflexivity.
Defined.

Lemma remove_jiyva_altars_once_witness :
  exists w',
    _apply_daction (U := Scenario.rules) DACT_REMOVE_JIYVA_ALTARS
      Scenario.holy_level = Ok w'
    /\ grd w' (5, 5)%Z <> DNGN_ALTAR_JIYVA.
Proof.
  destruct (remove_jiyva_altars_once (U := Scenario.rules)
              Scenario.holy_level) as (w' & H & Hnone & _).
  exists w'. split; [exact H|]. apply Hnone.
  apply (bool_decide_unpack _). vm_compute. exact I.
Defined.

(** ** The counter table after a rescan *)

Section Rescan.

Context {U : mon_util}.

Lemma update_da_counters_lookup w lev k :
  k < Z.to_nat NUM_DA_COUNTERS ->
  da_counters (update_da_counters w lev) !! k
  = (fun _ => matching_alive (menv w) (Z.of_nat k))
      <$> (da_counters lev !! k).
Proof.
  intros Hk. unfold update_da_counters.
  rewrite count_monsters_lookup, zero_counters_lookup by assumption.
  now destruct (da_counters lev !! k).
Qed.

Lemma update_da_counters_length w lev :
  length (da_counters (update_da_counters w lev)) = length (da_counters lev).
Proof.
  unfold update_da_counters.
  now rewrite count_monsters_length, zero_counters_length.
Qed.

Lemma matching_alive_le ms k : matching_alive ms k <= length (living ms).
Proof.
  unfold matching_alive, living.
  induction ms as [|mon ms IH]; [reflexivity|].
  rewrite !filter_cons.
  destruct (decide (alive mon = true /\ _)) as [[A _]|H].
  - rewrite decide_True by assumption. cbn [length]. lia.
  - case_decide; cbn [length]; lia.
Qed.

(** A rescan forgets what the table held: two tables of NUM_DA_COUNTERS
    slots come out of [update_da_counters] equal, whatever they held, so
    a second rescan of the same level changes nothing.  No slot comes out
    above the number of living monsters of the level; on a level without a
    living monster every slot comes out zero. *)
Theorem update_da_counters_forgets (w : world) (lev lev' : LevelInfo) :
  length (da_counters lev) = Z.to_nat NUM_DA_COUNTERS ->
  length (da_counters lev') = Z.to_nat NUM_DA_COUNTERS ->
  update_da_counters w lev = update_da_counters w lev'
  /\ update_da_counters w (update_da_counters w lev)
     = update_da_counters w lev
  /\ Forall (fun c => c <= length (living (menv w)))
            (da_counters (update_da_counters w lev))
  /\ (living (menv w) = [] ->
      Forall (fun c => c = 0) (da_counters (update_da_counters w lev))).
Proof.
  intros Hlen Hlen'.
  assert (Heq : forall l1 l2,
             length (da_counters l1) = Z.to_nat NUM_DA_COUNTERS ->
             length (da_counters l2) = Z.to_nat NUM_DA_COUNTERS ->
             update_da_counters w l1 = update_da_counters w l2).
  { intros l1 l2 H1 H2.
    assert (E : da_counters (update_da_counters w l1)
                = da_counters (update_da_counters w l2)).
    { apply list_eq. intros k.
      destruct (Nat.lt_ge_cases k (Z.to_nat NUM_DA_COUNTERS)) as [Hk|Hk].
      - rewrite !update_da_counters_lookup by assumption.
        destruct (lookup_lt_is_Some_2 (da_counters l1) k) as [c1 ->];
          [lia|].
        destruct (lookup_lt_is_Some_2 (da_counters l2) k) as [c2 ->];
          [lia|].
        reflexivity.
      - rewrite !lookup_ge_None_2;
          rewrite ?update_da_counters_length; try reflexivity; lia. }
    destruct (update_da_counters w l1), (update_da_counters w l2).
    cbn in E. now subst. }
  assert (Hle : Forall (fun c => c <= length (living (menv w)))
                       (da_counters (update_da_counters w lev))).
  { apply Forall_lookup. intros k c Hc.
    pose proof (lookup_lt_Some _ _ _ Hc) as Hk.
    rewrite update_da_counters_length, Hlen in Hk.
    rewrite update_da_counters_lookup in Hc by assumption.
    destruct (da_counters lev !! k); [|discriminate].
    injection Hc as <-. apply matching_alive_le. }
  split; [now apply Heq|]. split; [|split].
  - apply Heq; [|assumption]. now rewrite update_da_counters_length.
  - exact Hle.
  - intros Hnone. rewrite Hnone in Hle. cbn in Hle.
    eapply Forall_impl; [exact Hle|]. cbn. lia.
Qed.

End Rescan.

Lemma update_da_counters_forgets_witness :
  update_da_counters (U := Scenario.rules) Scenario.holy_level
    (mk_LevelInfo [9; 9; 9; 9; 9; 9; 9; 9])
  = update_da_counters (U := Scenario.rules) Scenario.holy_level
      (mk_LevelInfo [0; 1; 2; 3; 4; 5; 6; 7]).
Proof.
  apply (update_da_counters_forgets (U := Scenario.rules)
           Scenario.holy_level
           (mk_LevelInfo [9; 9; 9; 9; 9; 9; 9; 9])
           (mk_LevelInfo [0; 1; 2; 3; 4; 5; 6; 7])); reflexivity.
Defined.

(** ** The kinds that call nothing *)

Section Call_free.

Context {U : mon_util}.

(** The two reconversion resets, the altar removal and the rotting of
    corpses call no other unit, and each writes one part of the level
    only: the resets the monsters, the altar removal the grid, the rotting
    the items.  None of them makes a call, moves the cursor, writes the
    log, a counter or the flags of the level, or adds or removes a slot of
    [menv] or of [mitm]. *)
Theorem apply_daction_frame (e : daction_enumerator) (w w' : world) :
  e ∈ call_free_kinds ->
  _apply_daction e w = Ok w' ->
  calls w' = calls w
  /\ outside_kept w w'
  /\ length (menv w') = length (menv w)
  /\ length (mitm w') = length (mitm w)
  /\ level_flags (env w') = level_flags (env w)
  /\ (e <> DACT_REMOVE_JIYVA_ALTARS -> grid (env w') = grid (env w))
  /\ (e <> DACT_ROT_CORPSES -> mitm w' = mitm w)
  /\ (e <> DACT_HOLY_NEW_ATTEMPT -> e <> DACT_SLIME_NEW_ATTEMPT ->
      menv w' = menv w).
Proof.
  intros He. apply list_elem_of_In in He. cbn in He.
  assert (Hloop : forall b,
             (forall i mon, snd (b i mon) = []) ->
             calls (monster_iterator b w) = calls w
             /\ outside_kept w (monster_iterator b w)
             /\ length (menv (monster_iterator b w)) = length (menv w)
             /\ mitm (monster_iterator b w) = mitm w
             /\ level_flags (env (monster_iterator b w))
                = level_flags (env w)
             /\ grid (env (monster_iterator b w)) = grid (env w)).
  { intros b Hb.
    destruct (monster_iterator_frame b w) as (Hy & Ht & Hg & Hi & Hf & Hd).
    split; [rewrite monster_iterator_calls, silent_loop by assumption;
            apply app_nil_r|].
    split; [now repeat split|].
    split; [apply monster_iterator_length|].
    unfold mitm. tauto. }
  destruct He as [<- | [<- | [<- | [<- | []]]]]; intros [= <-].
  - destruct (Hloop holy_new_attempt) as (Hc & Hk & Hl & Hi & Hf & Hg).
    { intros i mon. unfold holy_new_attempt. now destruct (is_holy mon). }
    rewrite Hi. repeat split; try assumption; try apply Hk; congruence.
  - destruct (Hloop slime_new_attempt) as (Hc & Hk & Hl & Hi & Hf & Hg).
    { intros i mon. unfold slime_new_attempt.
      now destruct (mons_is_slime mon). }
    rewrite Hi. repeat split; try assumption; try apply Hk; congruence.
  - destruct (altar_fold_kept (rectangle_iterator 1) w)
      as (Hk & Hc & Hm & Hi & Hf).
    unfold remove_jiyva_altars. rewrite Hm, Hi.
    repeat split; try assumption; try apply Hk; congruence.
  - destruct (rot_corpses_frame w) as (Hk & Hc & Hm & Hg & Hf).
    destruct (rot_fold_frame (seq 0 (length (mitm w))) w)
      as (_ & _ & _ & Hl).
    fold (rot_corpses w) in Hl. rewrite Hm.
    repeat split; try assumption; try apply Hk; congruence.
Qed.

End Call_free.

Lemma apply_daction_frame_witness :
  exists w',
    _apply_daction (U := Scenario.rules) DACT_HOLY_NEW_ATTEMPT
      Scenario.item_level = Ok w'
    /\ mitm w' = Scenario.some_items
    /\ calls w' = [].
Proof.
  eexists. split; [reflexivity|].
  match goal with
  | |- mitm ?w' = _ /\ _ =>
      destruct (apply_daction_frame (U := Scenario.rules)
                  DACT_HOLY_NEW_ATTEMPT Scenario.item_level w')
        as (Hc & _ & _ & _ & _ & _ & Hi & _);
        [apply list_elem_of_In; cbn; tauto | reflexivity |]
  end.
  split; [apply Hi; discriminate | exact Hc].
Defined.
